(** * Young diagram growth: a shallow embedding of the simulation backend

    The development follows the Python sources:
    - [backend/diagrams2d/young_diagram.py]  (module [Diagram2D])
    - [backend/diagrams3d/young_diagram.py]  (module [Diagram3D])
    - [backend/diagrams2d/simulator.py]      (module [DiagramSimulator2D])
    - [backend/diagrams3d/simulator.py]      (module [DiagramSimulator3D])
    - [backend/common/utils.py]              (module [Utils])

    Conventions of the embedding.
    - A Python [int] is a [Z]; a cell is a tuple of them.
    - A Python [set] of cells is a [gset]; a [dict]/[defaultdict(int)] from
      cells to counts is a [gmap] into [Z].
    - The exponent [alpha] is a rational [Q] (every finite binary float is
      one), so that the validation [alpha <= 0] computes.  Floating-point
      results ([**], [np.sqrt], [np.cbrt]) are idealised as real numbers.
    - [random.choices(cells_list, weights=probabilities, k=1)[0]] returns an
      element of [cells_list]; the draw is taken from an entropy stream
      [rng : nat -> nat] indexed by the step, the drawn number being reduced
      modulo the length of the list.  The weights shape the distribution,
      not the support, and are therefore absent from the transition.
    - Methods that mutate [self] return the new object (state passing);
      a raised exception is a value [Raised e] next to the state reached.
    - The optional [callback] arguments are taken to be [None]. *)

From Stdlib Require Import ZArith QArith Reals Lra Lia Qreals.
From stdpp Require Import base gmap sets list strings pretty sorting.

Close Scope Q_scope.
Close Scope R_scope.
Open Scope Z_scope.
Set Warnings "-clear-no-such-hyp".

(** ** Exceptions and outcomes *)

(** Every exception the modelled code raises.  Those named [ValueError_*]
    are Python [ValueError]s, told apart by their message. *)
Inductive exn : Type :=
  | ValueError_steps                 (* "Количество шагов должно быть положительным числом" *)
  | ValueError_runs                  (* "Количество симуляций должно быть положительным числом" *)
  | ValueError_alpha                 (* "Параметр alpha должен быть положительным числом" *)
  | ValueError_no_addable (step : nat) (* "На шаге {step} нет доступных клеток для добавления" *)
  | ValueError_no_data               (* "Нет данных для вычисления предельной формы" *)
  | ValueError_dimensions            (* "Неподдерживаемое количество измерений" *)
  | ValueError_scaling               (* "Коэффициент масштабирования должен быть положительным" *)
  | ValueError_unpack                (* tuple unpacking of a key of the wrong length *)
  | IndexError                       (* [random.choices] on an empty population *)
  | FileNotFoundError                (* [open(filename, 'rb')] on a missing file *)
  | UnpicklingError                  (* [pickle.load] on contents it did not write *)
  | KeyError.                        (* [state["total_cell_counts"]] on a missing key *)

(** The spec's InvalidParameter conditions. *)
Definition InvalidParameter (e : exn) : Prop :=
  e = ValueError_steps ∨ e = ValueError_runs ∨ e = ValueError_alpha ∨
  e = ValueError_scaling.

(** How a call ends: it returns, possibly after [logger.warning] was called
    at some step (the 3D engine's early stop), or it raises. *)
Inductive outcome : Type :=
  | Returned (warned_at : option nat)
  | Raised (e : exn).

(** [random.choices(population, ..., k=1)[0]] for the draw [r]. *)
Definition random_choices {A : Type} (r : nat) (population : list A) : option A :=
  population !! (r `mod` length population)%nat.

(** [counts[cell] += 1] on a [defaultdict(int)]. *)
Definition incr `{Countable K} (cell : K) (counts : gmap K Z) : gmap K Z :=
  <[cell := default 0 (counts !! cell) + 1]> counts.

(** [for cell in diagram.cells: counts[cell] += 1]. *)
Definition count_cells `{Countable K} (cells : gset K) (counts : gmap K Z) : gmap K Z :=
  set_fold incr counts cells.

(** ** [class Diagram2D] *)
Module Diagram2D.

Definition Cell : Type := Z * Z.

Record t : Type := mk {
  cells : gset (Z * Z);
  _boundary_cells : gset (Z * Z)
}.

Definition _calculate_boundary_cells (cells : gset (Z * Z)) : gset (Z * Z) :=
  filter (λ '(x, y), (x + 1, y) ∉ cells ∨ (x, y + 1) ∉ cells) cells.

(** [initial_cells if initial_cells else {(0, 0)}]: [None] and the empty
    set are both falsy. *)
Definition __init__ (initial_cells : option (gset (Z * Z))) : t :=
  let cells :=
    match initial_cells with
    | Some s => if decide (s = ∅) then {[ (0, 0) ]} else s
    | None => {[ (0, 0) ]}
    end in
  mk cells (_calculate_boundary_cells cells).

(** Body of the inner loop of [get_addable_cells] for one neighbour. *)
Definition scan_neighbor (cells : gset (Z * Z)) (addable_cells : gset (Z * Z))
    (n : Z * Z) : gset (Z * Z) :=
  let '(nx, ny) := n in
  if bool_decide ((nx, ny) ∈ cells) then addable_cells
  else
    let has_support_below := bool_decide (ny = 0) || bool_decide ((nx, ny - 1) ∈ cells) in
    let has_left_neighbor := bool_decide (nx = 0) || bool_decide ((nx - 1, ny) ∈ cells) in
    if has_support_below && has_left_neighbor
    then {[ (nx, ny) ]} ∪ addable_cells
    else addable_cells.

Definition neighbors (c : Z * Z) : list (Z * Z) :=
  let '(x, y) := c in [(x + 1, y); (x, y + 1)].

Definition get_addable_cells (self : t) : gset (Z * Z) :=
  set_fold (λ c addable_cells, foldl (scan_neighbor (cells self)) addable_cells (neighbors c))
           ∅ (_boundary_cells self).

(** [total ** alpha], on the reals. *)
Definition calculate_weight (cell : Z * Z) (alpha : Q) : R :=
  let '(x, y) := cell in
  let total := (x + 1) + (y + 1) in
  Rpower (IZR total) (Q2R alpha).

Definition add_cell (self : t) (cell : Z * Z) : t :=
  let cells := {[ cell ]} ∪ cells self in
  mk cells (_calculate_boundary_cells cells).

(** The loop [for step in range(n_steps)], [todo] iterations from [step]. *)
Fixpoint simulate_loop (rng : nat → nat) (step todo : nat) (self : t) : outcome * t :=
  match todo with
  | O => (Returned None, self)
  | S todo' =>
      let addable_cells := get_addable_cells self in
      if decide (addable_cells = ∅) then (Raised (ValueError_no_addable step), self)
      else
        let cells_list := elements addable_cells in
        match random_choices (rng step) cells_list with
        | None => (Raised IndexError, self)
        | Some cell => simulate_loop rng (S step) todo' (add_cell self cell)
        end
  end.

Definition simulate (rng : nat → nat) (n_steps : Z) (alpha : Q) (self : t) : outcome * t :=
  if bool_decide (n_steps ≤ 0) then (Raised ValueError_steps, self)
  else simulate_loop rng 0 (Z.to_nat n_steps) self.

Definition size (self : t) : nat := size (cells self).

End Diagram2D.

(** ** [class Diagram3D] *)
Module Diagram3D.

Definition Cell : Type := Z * Z * Z.

Record t : Type := mk {
  cells : gset (Z * Z * Z);
  _boundary_cells : gset (Z * Z * Z)
}.

Definition _calculate_boundary_cells (cells : gset (Z * Z * Z)) : gset (Z * Z * Z) :=
  filter (λ '(x, y, z),
            (x + 1, y, z) ∉ cells ∨ (x, y + 1, z) ∉ cells ∨ (x, y, z + 1) ∉ cells)
         cells.

Definition __init__ (initial_cells : option (gset (Z * Z * Z))) : t :=
  let cells :=
    match initial_cells with
    | Some s => if decide (s = ∅) then {[ (0, 0, 0) ]} else s
    | None => {[ (0, 0, 0) ]}
    end in
  mk cells (_calculate_boundary_cells cells).

Definition scan_neighbor (cells : gset (Z * Z * Z)) (addable_cells : gset (Z * Z * Z))
    (n : Z * Z * Z) : gset (Z * Z * Z) :=
  let '(nx, ny, nz) := n in
  if negb (bool_decide ((nx, ny, nz) ∈ cells)) then
    let has_support_below := bool_decide (ny = 0) || bool_decide ((nx, ny - 1, nz) ∈ cells) in
    let has_left_neighbor := bool_decide (nx = 0) || bool_decide ((nx - 1, ny, nz) ∈ cells) in
    let has_back_neighbor := bool_decide (nz = 0) || bool_decide ((nx, ny, nz - 1) ∈ cells) in
    if has_support_below && has_left_neighbor && has_back_neighbor
    then {[ (nx, ny, nz) ]} ∪ addable_cells
    else addable_cells
  else addable_cells.

Definition neighbors (c : Z * Z * Z) : list (Z * Z * Z) :=
  let '(x, y, z) := c in [(x + 1, y, z); (x, y + 1, z); (x, y, z + 1)].

Definition get_addable_cells (self : t) : gset (Z * Z * Z) :=
  set_fold (λ c addable_cells, foldl (scan_neighbor (cells self)) addable_cells (neighbors c))
           ∅ (_boundary_cells self).

(** [volume ** alpha], on the reals. *)
Definition calculate_weight (cell : Z * Z * Z) (alpha : Q) : R :=
  let '(x, y, z) := cell in
  let volume := (x + 1) * (y + 1) * (z + 1) in
  Rpower (IZR volume) (Q2R alpha).

Definition add_cell (self : t) (cell : Z * Z * Z) : t :=
  let cells := {[ cell ]} ∪ cells self in
  mk cells (_calculate_boundary_cells cells).

(** The loop [for step in range(n_steps)]; an empty candidate set logs a
    warning and leaves the loop with [break]. *)
Fixpoint simulate_loop (rng : nat → nat) (step todo : nat) (self : t) : outcome * t :=
  match todo with
  | O => (Returned None, self)
  | S todo' =>
      let addable_cells := get_addable_cells self in
      if decide (addable_cells = ∅) then (Returned (Some step), self)
      else
        let cells_list := elements addable_cells in
        match random_choices (rng step) cells_list with
        | None => (Raised IndexError, self)
        | Some cell => simulate_loop rng (S step) todo' (add_cell self cell)
        end
  end.

Definition simulate (rng : nat → nat) (n_steps : Z) (alpha : Q) (self : t) : outcome * t :=
  if bool_decide (n_steps ≤ 0) then (Raised ValueError_steps, self)
  else if Qle_bool alpha 0 then (Raised ValueError_alpha, self)
  else simulate_loop rng 0 (Z.to_nat n_steps) self.

Definition size (self : t) : nat := size (cells self).

End Diagram3D.

(** ** Snapshots: [pickle] *)

(** [pickle.dump] / [pickle.load] as an interface: a serialiser of the
    pickled object into file contents which reads back what it wrote. *)
Class Pickle (V : Type) : Type := {
  bytes : Type;
  pickle_dump : V → bytes;
  pickle_load : bytes → option V;
  pickle_load_dump : ∀ v, pickle_load (pickle_dump v) = Some v
}.

(** A serialiser for every countable type, through stdpp's encoding into
    binary positive numbers. *)
#[export] Instance countable_pickle `{Countable V} : Pickle V := {|
  bytes := positive;
  pickle_dump := encode;
  pickle_load := decode;
  pickle_load_dump := decode_encode
|}.

(** What both aggregators have in common: the result of [simulate], and the
    snapshot methods, whose text is the same in the two classes. *)
Module Simulator.
Section Simulator.
Context `{Countable K}.

(** The object after the call, the caller's [initial_cells] set after the
    call (the diagrams of the runs are built on that very set when it is
    non-empty, and grow it in place), and the diagrams reported by
    [logger.info] at the end of each completed run. *)
Record result : Type := mk_result {
  res_outcome : outcome;
  res_counts : gmap K Z;
  res_initial_cells : option (gset K);
  res_completed : list (gset K)
}.

(** Whether a diagram built from [initial_cells] is the caller's set. *)
Definition shared (initial_cells : option (gset K)) : bool :=
  match initial_cells with
  | Some s => negb (bool_decide (s = ∅))
  | None => false
  end.

(** The caller's set once a diagram built from it has grown to [cells]. *)
Definition grown (initial_cells : option (gset K)) (cells : gset K) : option (gset K) :=
  if shared initial_cells then Some cells else initial_cells.

Context `{Pickle (gmap string (gmap K Z))}.

(** [state = {"total_cell_counts": dict(self.total_cell_counts)}] is
    written to [filename]; opening the file for writing succeeds. *)
Definition save_state (total_cell_counts : gmap K Z) (filename : string)
    (files : gmap string bytes) : outcome * gmap string bytes :=
  let state : gmap string (gmap K Z) := {[ "total_cell_counts"%string := total_cell_counts ]} in
  (Returned None, <[filename := pickle_dump state]> files).

Definition load_state (total_cell_counts : gmap K Z) (filename : string)
    (files : gmap string bytes) : outcome * gmap K Z :=
  match files !! filename with
  | None => (Raised FileNotFoundError, total_cell_counts)
  | Some content =>
      match pickle_load content with
      | None => (Raised UnpicklingError, total_cell_counts)
      | Some state =>
          match state !! "total_cell_counts"%string with
          | None => (Raised KeyError, total_cell_counts)
          | Some counts => (Returned None, counts)
          end
      end
  end.

End Simulator.
End Simulator.

(** ** [class DiagramSimulator2D] *)
Module DiagramSimulator2D.

(** The loop [for run in range(1, runs + 1)], [todo] runs from [run];
    [rng run] is the entropy stream of that run. *)
Fixpoint run_loop (rng : nat → nat → nat) (n_steps : Z) (alpha : Q) (run todo : nat)
    (initial_cells : option (gset (Z * Z))) (total_cell_counts : gmap (Z * Z) Z)
    (completed : list (gset (Z * Z))) : Simulator.result (K := Z * Z) :=
  match todo with
  | O => Simulator.mk_result (Returned None) total_cell_counts initial_cells completed
  | S todo' =>
      let diagram := Diagram2D.__init__ initial_cells in
      let '(oc, diagram) := Diagram2D.simulate (rng run) n_steps alpha diagram in
      let initial_cells := Simulator.grown initial_cells (Diagram2D.cells diagram) in
      match oc with
      | Raised e => Simulator.mk_result (Raised e) total_cell_counts initial_cells completed
      | Returned _ =>
          run_loop rng n_steps alpha (S run) todo' initial_cells
            (count_cells (Diagram2D.cells diagram) total_cell_counts)
            (completed ++ [Diagram2D.cells diagram])
      end
  end.

Definition simulate (rng : nat → nat → nat) (n_steps : Z) (alpha : Q) (runs : Z)
    (initial_cells : option (gset (Z * Z))) (total_cell_counts : gmap (Z * Z) Z)
    : Simulator.result (K := Z * Z) :=
  if bool_decide (n_steps ≤ 0) then
    Simulator.mk_result (Raised ValueError_steps) total_cell_counts initial_cells []
  else if bool_decide (runs ≤ 0) then
    Simulator.mk_result (Raised ValueError_runs) total_cell_counts initial_cells []
  else if Qle_bool alpha 0 then
    Simulator.mk_result (Raised ValueError_alpha) total_cell_counts initial_cells []
  else
    run_loop rng n_steps alpha 1 (Z.to_nat runs) initial_cells ∅ [].

Definition save_state `{Pickle (gmap string (gmap (Z * Z) Z))} :=
  Simulator.save_state (K := Z * Z).
Definition load_state `{Pickle (gmap string (gmap (Z * Z) Z))} :=
  Simulator.load_state (K := Z * Z).

End DiagramSimulator2D.

(** ** [class DiagramSimulator3D] *)
Module DiagramSimulator3D.

Fixpoint run_loop (rng : nat → nat → nat) (n_steps : Z) (alpha : Q) (run todo : nat)
    (initial_cells : option (gset (Z * Z * Z))) (total_cell_counts : gmap (Z * Z * Z) Z)
    (completed : list (gset (Z * Z * Z))) : Simulator.result (K := Z * Z * Z) :=
  match todo with
  | O => Simulator.mk_result (Returned None) total_cell_counts initial_cells completed
  | S todo' =>
      let diagram := Diagram3D.__init__ initial_cells in
      let '(oc, diagram) := Diagram3D.simulate (rng run) n_steps alpha diagram in
      let initial_cells := Simulator.grown initial_cells (Diagram3D.cells diagram) in
      match oc with
      | Raised e => Simulator.mk_result (Raised e) total_cell_counts initial_cells completed
      | Returned _ =>
          run_loop rng n_steps alpha (S run) todo' initial_cells
            (count_cells (Diagram3D.cells diagram) total_cell_counts)
            (completed ++ [Diagram3D.cells diagram])
      end
  end.

(** No check of [alpha] here: [Diagram3D.simulate] makes it, inside the
    first run. *)
Definition simulate (rng : nat → nat → nat) (n_steps : Z) (alpha : Q) (runs : Z)
    (initial_cells : option (gset (Z * Z * Z))) (total_cell_counts : gmap (Z * Z * Z) Z)
    : Simulator.result (K := Z * Z * Z) :=
  if bool_decide (n_steps ≤ 0) then
    Simulator.mk_result (Raised ValueError_steps) total_cell_counts initial_cells []
  else if bool_decide (runs ≤ 0) then
    Simulator.mk_result (Raised ValueError_runs) total_cell_counts initial_cells []
  else
    run_loop rng n_steps alpha 1 (Z.to_nat runs) initial_cells ∅ [].

Definition save_state `{Pickle (gmap string (gmap (Z * Z * Z) Z))} :=
  Simulator.save_state (K := Z * Z * Z).
Definition load_state `{Pickle (gmap string (gmap (Z * Z * Z) Z))} :=
  Simulator.load_state (K := Z * Z * Z).

End DiagramSimulator3D.

(** ** [common/utils.py] *)
Module Utils.

(** A [numpy] float: a real number or [nan]. *)
Inductive npfloat : Type :=
  | Finite (r : R)
  | NaN.

(** [np.sqrt(n)]: [nan] below zero. *)
Definition np_sqrt (n : Z) : npfloat :=
  if bool_decide (n < 0) then NaN else Finite (sqrt (IZR n)).

(** The real cube root. *)
Definition cbrt (x : R) : R :=
  if Rlt_dec 0 x then Rpower x (/ 3)
  else if Rlt_dec x 0 then (- Rpower (- x) (/ 3))%R
  else 0%R.

Definition np_cbrt (n : Z) : npfloat := Finite (cbrt (IZR n)).

(** [scaling_factor <= 0]: false on [nan]. *)
Definition le_zero (f : npfloat) : bool :=
  match f with
  | Finite r => if Rle_dec r 0 then true else false
  | NaN => false
  end.

(** [x, y = key] and [x, y, z = key], summed. *)
Definition sum2 (key : list Z) : option Z :=
  match key with [x; y] => Some (x + y) | _ => None end.
Definition sum3 (key : list Z) : option Z :=
  match key with [x; y; z] => Some (x + y + z) | _ => None end.

(** [max] of a sequence; [None] on the empty one. *)
Definition py_max (l : list Z) : option Z :=
  match l with
  | [] => None
  | h :: t => Some (foldl Z.max h t)
  end.

(** [max(f(key) for key in cell_counts.keys())]. *)
Definition max_extent (f : list Z → option Z) (cell_counts : gmap (list Z) Z) : option Z :=
  mapM f (map_to_list cell_counts).*1 ≫= py_max.

(** [compute_limit_shape] up to the check of the scaling factor (lines
    61-78): the exception raised, or the factor by which the coordinates
    are then divided.  The interpolation that follows is [scipy]'s. *)
Definition compute_limit_shape (cell_counts : gmap (list Z) Z)
    (scaling_factor : option npfloat) (dimensions : Z) : exn + npfloat :=
  if decide (cell_counts = ∅) then inl ValueError_no_data
  else if negb (bool_decide (dimensions = 2) || bool_decide (dimensions = 3)) then
    inl ValueError_dimensions
  else
    let resolved : exn + npfloat :=
      match scaling_factor with
      | Some f => inr f
      | None =>
          if bool_decide (dimensions = 2) then
            match max_extent sum2 cell_counts with
            | Some n => inr (np_sqrt n)
            | None => inl ValueError_unpack
            end
          else
            match max_extent sum3 cell_counts with
            | Some n => inr (np_cbrt n)
            | None => inl ValueError_unpack
            end
      end in
    match resolved with
    | inl e => inl e
    | inr f => if le_zero f then inl ValueError_scaling else inr f
    end.

End Utils.

(** ** [class Diagram3D]: statistics and serialisation *)
Module Diagram3D_data.

(** [max()] of an empty sequence raises a [ValueError] of its own. *)
Inductive max_exn : Type :=
  | ValueError_max_empty.

(** The dictionary of [get_statistics], key by key. *)
Record statistics : Type := mk_statistics {
  st_size : nat;
  st_boundary_size : nat;
  st_max_coords : Z * Z * Z;
  st_volume : Z
}.

Definition get_statistics (self : Diagram3D.t) : max_exn + statistics :=
  let cells := Diagram3D.cells self in
  if decide (cells = ∅) then inr (mk_statistics 0 0 (0, 0, 0) 0)
  else
    match Utils.py_max ((λ c : Z * Z * Z, c.1.1) <$> elements cells),
          Utils.py_max ((λ c : Z * Z * Z, c.1.2) <$> elements cells),
          Utils.py_max ((λ c : Z * Z * Z, c.2) <$> elements cells) with
    | Some max_x, Some max_y, Some max_z =>
        let volume := (max_x + 1) * (max_y + 1) * (max_z + 1) in
        inr (mk_statistics (size cells) (size (Diagram3D._boundary_cells self))
               (max_x, max_y, max_z) volume)
    | _, _, _ => inl ValueError_max_empty
    end.

(** The dictionary of [to_dict]. *)
Record data : Type := mk_data {
  d_cells : list (Z * Z * Z);
  d_boundary_cells : list (Z * Z * Z);
  d_statistics : statistics
}.

Definition to_dict (self : Diagram3D.t) : max_exn + data :=
  match get_statistics self with
  | inl e => inl e
  | inr st =>
      inr (mk_data (elements (Diagram3D.cells self))
             (elements (Diagram3D._boundary_cells self)) st)
  end.

(** [cls(set(tuple(cell) for cell in data["cells"]))]: a new set. *)
Definition from_dict (d : data) : Diagram3D.t :=
  Diagram3D.__init__ (Some (list_to_set (d_cells d))).

End Diagram3D_data.

(** ** [save_cells_to_file] *)
Module Utils_files.

(** ["\n"]. *)
Definition newline : string := String (Ascii.ascii_of_nat 10) "".

(** [a <= b] on tuples of integers: the first difference decides, and a
    proper prefix comes first. *)
Fixpoint tuple_le (a b : list Z) : bool :=
  match a, b with
  | [], _ => true
  | _ :: _, [] => false
  | x :: a', y :: b' => (x <? y) || ((x =? y) && tuple_le a' b')
  end.

(** [i <= j] on the items [(coords, count)] of the dictionary. *)
Definition item_le (i j : list Z * Z) : Prop :=
  tuple_le i.1 j.1 ∧ (i.1 = j.1 → i.2 ≤ j.2).

#[export] Instance item_le_dec : RelDecision item_le.
Proof. intros i j. unfold item_le. apply _. Defined.

(** [sorted(cell_counts.items())]. *)
Definition sorted_items (cell_counts : gmap (list Z) Z) : list (list Z * Z) :=
  merge_sort item_le (map_to_list cell_counts).

(** What the loop writes for one item: a line for a 2-tuple or a 3-tuple,
    nothing otherwise. *)
Definition format_line (item : list Z * Z) : string :=
  let '(coords, count) := item in
  match coords with
  | [x; y] => pretty x +:+ "," +:+ pretty y +:+ "," +:+ pretty count +:+ newline
  | [x; y; z] =>
      pretty x +:+ "," +:+ pretty y +:+ "," +:+ pretty z +:+ "," +:+ pretty count +:+ newline
  | _ => ""
  end.

(** The file is opened for writing (its old contents are dropped) and the
    lines are written in the order of [sorted]. *)
Definition save_cells_to_file (cell_counts : gmap (list Z) Z) (filename : string)
    (files : gmap string string) : gmap string string :=
  <[filename := String.concat "" (format_line <$> sorted_items cell_counts)]> files.

End Utils_files.

(** ** The aggregators: export of the counts *)

(** A 2D cell and a 3D cell as the tuples [common/utils.py] receives. *)
Definition key2 (c : Z * Z) : list Z := [c.1; c.2].
Definition key3 (c : Z * Z * Z) : list Z := [c.1.1; c.1.2; c.2].

#[export] Instance key2_inj : Inj (=) (=) key2.
Proof. intros [x y] [x' y'] [= -> ->]. reflexivity. Qed.

#[export] Instance key3_inj : Inj (=) (=) key3.
Proof. intros [[x y] z] [[x' y'] z'] [= -> -> ->]. reflexivity. Qed.

(** What these methods raise besides the exceptions of [compute_limit_shape]. *)
Inductive export_exn : Type :=
  | ZeroDivisionError                (* [count / max_count] with [max_count == 0] *)
  | ValueError_max                   (* [max()] of an empty sequence *)
  | ValueError_no_cells              (* "Нет клеток, которые можно отобразить" *)
  | ValueError_no_skimage            (* "Требуется библиотека scikit-image" *)
  | Raised_in_compute (e : exn).     (* raised by [compute_limit_shape] *)

Module DiagramSimulator2D_data.

Record cell_data : Type := mk_cell_data {
  cd_x : Z;
  cd_y : Z;
  cd_count : Z;
  cd_normalized_count : Q
}.

(** The two dictionaries [get_json_data] can return. *)
Inductive json : Type :=
  | Json_error
  | Json_data (cells : list cell_data) (max_count : Z) (max_x max_y : Z).

Definition get_json_data (total_cell_counts : gmap (Z * Z) Z) : export_exn + json :=
  if decide (total_cell_counts = ∅) then inr Json_error
  else
    match Utils.py_max (map_to_list total_cell_counts).*2 with
    | None => inl ValueError_max
    | Some max_count =>
        if decide (max_count = 0) then inl ZeroDivisionError
        else
          let cells_data :=
            (λ '((x, y), count),
               mk_cell_data x y count (inject_Z count / inject_Z max_count)%Q)
              <$> map_to_list total_cell_counts in
          match Utils.py_max ((λ c : Z * Z, c.1) <$> (map_to_list total_cell_counts).*1),
                Utils.py_max ((λ c : Z * Z, c.2) <$> (map_to_list total_cell_counts).*1) with
          | Some max_x, Some max_y =>
              inr (Json_data cells_data max_count (max_x + 1) (max_y + 1))
          | _, _ => inl ValueError_max
          end
    end.

Definition save_cells (total_cell_counts : gmap (Z * Z) Z) (filename : string)
    (files : gmap string string) : gmap string string :=
  Utils_files.save_cells_to_file (kmap key2 total_cell_counts) filename files.


End DiagramSimulator2D_data.

Module DiagramSimulator3D_data.

Record cell_data : Type := mk_cell_data {
  cd_x : Z;
  cd_y : Z;
  cd_z : Z;
  cd_count : Z;
  cd_normalized_count : Q
}.

Inductive json : Type :=
  | Json_error
  | Json_data (cells : list cell_data) (max_count : Z) (max_x max_y max_z : Z).

Definition get_json_data (total_cell_counts : gmap (Z * Z * Z) Z) : export_exn + json :=
  if decide (total_cell_counts = ∅) then inr Json_error
  else
    match Utils.py_max (map_to_list total_cell_counts).*2 with
    | None => inl ValueError_max
    | Some max_count =>
        if decide (max_count = 0) then inl ZeroDivisionError
        else
          let cells_data :=
            (λ '((x, y, z), count),
               mk_cell_data x y z count (inject_Z count / inject_Z max_count)%Q)
              <$> map_to_list total_cell_counts in
          match Utils.py_max ((λ c : Z * Z * Z, c.1.1) <$> (map_to_list total_cell_counts).*1),
                Utils.py_max ((λ c : Z * Z * Z, c.1.2) <$> (map_to_list total_cell_counts).*1),
                Utils.py_max ((λ c : Z * Z * Z, c.2) <$> (map_to_list total_cell_counts).*1) with
          | Some max_x, Some max_y, Some max_z =>
              inr (Json_data cells_data max_count (max_x + 1) (max_y + 1) (max_z + 1))
          | _, _, _ => inl ValueError_max
          end
    end.

Definition save_cells (total_cell_counts : gmap (Z * Z * Z) Z) (filename : string)
    (files : gmap string string) : gmap string string :=
  Utils_files.save_cells_to_file (kmap key3 total_cell_counts) filename files.


End DiagramSimulator3D_data.

(** ** The notions of the specification *)
Module Spec.

(** A downward-closed order ideal of ℕ²: every cell has non-negative
    coordinates and every cell below a cell of the set is in the set. *)
Definition order_ideal2 (cells : gset (Z * Z)) : Prop :=
  ∀ x y, (x, y) ∈ cells →
    0 ≤ x ∧ 0 ≤ y ∧
    ∀ x' y', 0 ≤ x' ≤ x → 0 ≤ y' ≤ y → (x', y') ∈ cells.

Definition order_ideal3 (cells : gset (Z * Z * Z)) : Prop :=
  ∀ x y z, (x, y, z) ∈ cells →
    0 ≤ x ∧ 0 ≤ y ∧ 0 ≤ z ∧
    ∀ x' y' z', 0 ≤ x' ≤ x → 0 ≤ y' ≤ y → 0 ≤ z' ≤ z → (x', y', z') ∈ cells.

(** Following the spec's words: c is addable iff c∉cells and for every
    axis i, either c_i=0 or c−e_i∈cells. *)
Definition addable2 (cells : gset (Z * Z)) (c : Z * Z) : Prop :=
  (c ∉ cells) ∧
  (c.1 = 0 ∨ (c.1 - 1, c.2) ∈ cells) ∧
  (c.2 = 0 ∨ (c.1, c.2 - 1) ∈ cells).

Definition addable3 (cells : gset (Z * Z * Z)) (c : Z * Z * Z) : Prop :=
  (c ∉ cells) ∧
  (c.1.1 = 0 ∨ (c.1.1 - 1, c.1.2, c.2) ∈ cells) ∧
  (c.1.2 = 0 ∨ (c.1.1, c.1.2 - 1, c.2) ∈ cells) ∧
  (c.2 = 0 ∨ (c.1.1, c.1.2, c.2 - 1) ∈ cells).

(** The boundary is the one computed from the cells: what [__init__] and
    [add_cell] establish. *)
Definition consistent2 (d : Diagram2D.t) : Prop :=
  Diagram2D._boundary_cells d = Diagram2D._calculate_boundary_cells (Diagram2D.cells d).

Definition consistent3 (d : Diagram3D.t) : Prop :=
  Diagram3D._boundary_cells d = Diagram3D._calculate_boundary_cells (Diagram3D.cells d).

(** Every count is at least one and at most the number of completed
    runs, and every key is a cell of the diagram of a completed run. *)
Definition counted `{Countable K} (counts : gmap K Z) (completed : list (gset K)) : Prop :=
  ∀ c v, counts !! c = Some v →
    1 ≤ v ≤ Z.of_nat (length completed) ∧ ∃ s, s ∈ completed ∧ c ∈ s.

(** The number of completed runs whose diagram holds the cell. *)
Definition occurrences `{Countable K} (c : K) (completed : list (gset K)) : Z :=
  Z.of_nat (length (filter (λ s, c ∈ s) completed)).

(** The counts are the frequencies of the cells among the completed runs;
    a cell of no run has no entry. *)
Definition frequencies `{Countable K} (counts : gmap K Z) (completed : list (gset K)) : Prop :=
  ∀ c, counts !! c =
       if decide (occurrences c completed = 0) then None
       else Some (occurrences c completed).

(** The cells of the box [0..mx] x [0..my] x [0..mz], row by row. *)
Definition box (mx my mz : Z) : list (Z * Z * Z) :=
  x ← seqZ 0 (mx + 1); y ← seqZ 0 (my + 1); z ← seqZ 0 (mz + 1); [(x, y, z)].

(** The spec's extent of a cell: the sum of its coordinates. *)
Definition extent (key : list Z) : Z := foldr Z.add 0 key.

(** [n] is the maximum, over the cells of the map, of the extent. *)
Definition is_max_extent (cell_counts : gmap (list Z) Z) (n : Z) : Prop :=
  (∃ key, is_Some (cell_counts !! key) ∧ extent key = n) ∧
  ∀ key, is_Some (cell_counts !! key) → extent key ≤ n.

(** A cell of ℕ^d, as a key of the map. *)
Definition is_cell (d : Z) (key : list Z) : Prop :=
  Z.of_nat (length key) = d ∧ Forall (λ x, 0 ≤ x) key.

End Spec.

(** * Properties *)

(** ** Two dimensions: the candidates of [get_addable_cells] *)
Section Diagram2D_addable.
Import Diagram2D.
Implicit Types (cells acc : gset (Z * Z)) (c n b : Z * Z) (d : t).

Lemma elem_of_scan_neighbor2 cells acc n c :
  c ∈ scan_neighbor cells acc n ↔ c ∈ acc ∨ (c = n ∧ Spec.addable2 cells n).
Proof.
  unfold scan_neighbor, Spec.addable2. destruct n as [nx ny]; simpl.
  repeat case_bool_decide; simpl; set_solver.
Qed.

Lemma elem_of_scan_neighbors2 cells l acc c :
  c ∈ foldl (scan_neighbor cells) acc l ↔ c ∈ acc ∨ (c ∈ l ∧ Spec.addable2 cells c).
Proof.
  revert acc. induction l as [|n l IH]; intros acc; simpl.
  - set_solver.
  - rewrite IH, elem_of_scan_neighbor2, elem_of_cons. naive_solver.
Qed.

Lemma elem_of_get_addable_cells2 d c :
  c ∈ get_addable_cells d ↔
  (∃ b, b ∈ _boundary_cells d ∧ c ∈ neighbors b) ∧ Spec.addable2 (cells d) c.
Proof.
  unfold get_addable_cells.
  apply (set_fold_ind_L (λ acc X, c ∈ acc ↔ (∃ b, b ∈ X ∧ c ∈ neighbors b) ∧ _)).
  - set_solver.
  - intros b X acc _ IH. rewrite elem_of_scan_neighbors2, IH. set_solver.
Qed.

Lemma get_addable_cells_addable2 d c :
  c ∈ get_addable_cells d → Spec.addable2 (cells d) c.
Proof. rewrite elem_of_get_addable_cells2. tauto. Qed.

Lemma elem_of_boundary2 cells x y :
  (x, y) ∈ _calculate_boundary_cells cells ↔
  ((x + 1, y) ∉ cells ∨ (x, y + 1) ∉ cells) ∧ (x, y) ∈ cells.
Proof. unfold _calculate_boundary_cells. by rewrite elem_of_filter. Qed.

Lemma init_consistent2 ini : Spec.consistent2 (__init__ ini).
Proof. reflexivity. Qed.


(** Adding a candidate keeps the order ideal. *)
Lemma add_cell_ideal2 d c :
  Spec.order_ideal2 (cells d) → Spec.addable2 (cells d) c →
  Spec.order_ideal2 (cells (add_cell d c)).
Proof.
  intros Hid (Hnot & Hx & Hy). destruct c as [cx cy]; simpl in *.
  assert (0 ≤ cx) as Hcx by (destruct Hx as [->|Hx]; [lia|]; apply Hid in Hx; lia).
  assert (0 ≤ cy) as Hcy by (destruct Hy as [->|Hy]; [lia|]; apply Hid in Hy; lia).
  intros x y [Heq%elem_of_singleton | Hin]%elem_of_union.
  - injection Heq as -> ->. split; [done|]. split; [done|].
    intros x' y' Hx' Hy'.
    destruct (decide (x' = cx)) as [->|Hnx]; [destruct (decide (y' = cy)) as [->|Hny]|].
    + set_solver.
    + destruct Hy as [->|Hy]; [lia|]. apply elem_of_union; right.
      apply (Hid _ _ Hy); lia.
    + destruct Hx as [->|Hx]; [lia|]. apply elem_of_union; right.
      apply (Hid _ _ Hx); lia.
  - destruct (Hid _ _ Hin) as (? & ? & Hdown). split; [done|]. split; [done|].
    intros x' y' Hx' Hy'. apply elem_of_union; right. by apply Hdown.
Qed.

(** With a consistent boundary, on a non-empty ideal the scan of the
    boundary finds every addable cell. *)
Lemma addable_found2 d c :
  Spec.consistent2 d → cells d ≠ ∅ → Spec.order_ideal2 (cells d) →
  Spec.addable2 (cells d) c → c ∈ get_addable_cells d.
Proof.
  intros Hcons Hne Hid Hadd. apply elem_of_get_addable_cells2. split; [|done].
  destruct Hadd as (Hnot & Hx & Hy). destruct c as [cx cy]; simpl in *.
  assert ((0, 0) ∈ cells d) as H00.
  { apply set_choose_L in Hne as [[x y] Hin].
    destruct (Hid _ _ Hin) as (? & ? & Hdown). apply Hdown; lia. }
  rewrite Hcons.
  destruct Hx as [->|Hx].
  - destruct Hy as [->|Hy]; [done|].
    exists (0, cy - 1). split.
    + apply elem_of_boundary2. split; [|done]. right. by replace (cy - 1 + 1) with cy by lia.
    + simpl. replace (cy - 1 + 1) with cy by lia. set_solver.
  - exists (cx - 1, cy). split.
    + apply elem_of_boundary2. split; [|done]. left. by replace (cx - 1 + 1) with cx by lia.
    + simpl. replace (cx - 1 + 1) with cx by lia. set_solver.
Qed.

End Diagram2D_addable.

(** ** Auxiliary facts on draws, maxima and counting *)
Section Auxiliary.

Lemma random_choices_elem {A} (r : nat) (l : list A) (x : A) :
  random_choices r l = Some x → x ∈ l.
Proof. unfold random_choices. intros Hx. eapply list_elem_of_lookup_2, Hx. Qed.

Lemma random_choices_is_Some {A} (r : nat) (l : list A) :
  l ≠ [] → is_Some (random_choices r l).
Proof.
  intros Hl. unfold random_choices. apply lookup_lt_is_Some.
  apply Nat.mod_upper_bound. by destruct l.
Qed.

Lemma random_choices_elements `{Countable A} (r : nat) (X : gset A) :
  X ≠ ∅ → ∃ x, random_choices r (elements X) = Some x ∧ x ∈ X.
Proof.
  intros HX.
  destruct (random_choices_is_Some r (elements X)) as [x Hx].
  { intros Hnil. by apply elements_empty_inv, leibniz_equiv in Hnil. }
  exists x. split; [done|]. by apply random_choices_elem, elem_of_elements in Hx.
Qed.

(** A non-empty finite set has an element that maximises [f]. *)
Lemma list_max_elem {A} (f : A → Z) (l : list A) :
  l ≠ [] → ∃ p, p ∈ l ∧ ∀ q, q ∈ l → f q ≤ f p.
Proof.
  induction l as [|a l IH]; [done|]. intros _.
  destruct l as [|b l].
  - exists a. split; [by left|]. intros q ->%list_elem_of_singleton. lia.
  - destruct IH as (p & Hp & Hmax); [done|].
    destruct (decide (f p ≤ f a)).
    + exists a. split; [by left|].
      intros q [->|Hq]%elem_of_cons; [lia|]. specialize (Hmax _ Hq). lia.
    + exists p. split; [by right|].
      intros q [->|Hq]%elem_of_cons; [lia|]. by apply Hmax.
Qed.

Lemma set_max_elem `{Countable A} (f : A → Z) (X : gset A) :
  X ≠ ∅ → ∃ p, p ∈ X ∧ ∀ q, q ∈ X → f q ≤ f p.
Proof.
  intros HX. destruct (list_max_elem f (elements X)) as (p & Hp & Hmax).
  { intros Hnil. by apply elements_empty_inv, leibniz_equiv in Hnil. }
  exists p. split; [by apply elem_of_elements|].
  intros q Hq. by apply Hmax, elem_of_elements.
Qed.

Lemma size_add_fresh `{Countable A} (x : A) (X : gset A) :
  x ∉ X → size ({[ x ]} ∪ X) = S (size X).
Proof. intros Hx. rewrite size_union by set_solver. by rewrite size_singleton. Qed.

End Auxiliary.

(** ** Two dimensions: the growth loop *)
Section Diagram2D_simulate.
Import Diagram2D.
Implicit Types (d : t) (c : Z * Z) (rng : nat → nat).

(** One iteration of the loop, when there is a candidate. *)
Lemma simulate_loop_step2 rng step todo d :
  get_addable_cells d ≠ ∅ →
  ∃ c, c ∈ get_addable_cells d ∧
       simulate_loop rng step (S todo) d = simulate_loop rng (S step) todo (add_cell d c).
Proof.
  intros Hne. destruct (random_choices_elements (rng step) _ Hne) as (c & Hc & Hin).
  exists c. split; [done|]. simpl. rewrite decide_False by done. by rewrite Hc.
Qed.

(** The policy on exhaustion: the loop raises at the current step and
    leaves the diagram as it is. *)
Lemma simulate_loop_exhausted2 rng step todo d :
  get_addable_cells d = ∅ →
  simulate_loop rng step (S todo) d = (Raised (ValueError_no_addable step), d).
Proof. intros He. simpl. by rewrite decide_True. Qed.

(** A run of [k + m] iterations is a run of [k] iterations followed, when
    it completes, by a run of [m] iterations. *)
Lemma simulate_loop_app2 rng step k m d :
  simulate_loop rng step (k + m) d =
  match simulate_loop rng step k d with
  | (Returned None, d') => simulate_loop rng (step + k) m d'
  | other => other
  end.
Proof.
  revert step d. induction k as [|k IH]; intros step d.
  - simpl. by rewrite Nat.add_0_r.
  - cbn [Nat.add simulate_loop]. case_decide; [done|].
    destruct (random_choices _ _); [|done].
    rewrite IH. by replace (S step + k)%nat with (step + S k)%nat by lia.
Qed.

(** Whatever holds of the start and is kept by adding a candidate holds
    of the diagram the loop ends with, raised or not. *)
Lemma simulate_loop_invariant2 (P : t → Prop) rng step todo d :
  (∀ d c, P d → c ∈ get_addable_cells d → P (add_cell d c)) →
  P d → P (simulate_loop rng step todo d).2.
Proof.
  intros Hadd. revert step d. induction todo as [|todo IH]; intros step d HP; [done|].
  simpl. case_decide; [done|].
  destruct (random_choices _ _) as [c|] eqn:Hc; [|done].
  apply IH, Hadd; [done|]. by apply random_choices_elem, elem_of_elements in Hc.
Qed.

Lemma simulate_loop_ideal2 rng step todo d :
  Spec.order_ideal2 (cells d) → Spec.order_ideal2 (cells (simulate_loop rng step todo d).2).
Proof.
  apply (simulate_loop_invariant2 (λ d, Spec.order_ideal2 (cells d))).
  intros d' c Hid Hc. by apply add_cell_ideal2, get_addable_cells_addable2.
Qed.

Lemma add_cell_size2 d c :
  c ∈ get_addable_cells d → size (add_cell d c) = S (size d).
Proof.
  intros (Hnot & _)%get_addable_cells_addable2. by apply size_add_fresh.
Qed.

(** Every completed iteration adds exactly one new cell. *)
Lemma simulate_loop_size2 rng step todo d w d' :
  simulate_loop rng step todo d = (Returned w, d') →
  size d' = (size d + todo)%nat.
Proof.
  revert step d. induction todo as [|todo IH]; intros step d; simpl.
  - intros [= _ <-]. lia.
  - case_decide; [done|].
    destruct (random_choices _ _) as [c|] eqn:Hc; [|done].
    intros Hrun. apply IH in Hrun. rewrite Hrun, add_cell_size2; [lia|].
    by apply random_choices_elem, elem_of_elements in Hc.
Qed.




End Diagram2D_simulate.

(** ** Three dimensions: the candidates of [get_addable_cells] *)
Section Diagram3D_addable.
Import Diagram3D.
Implicit Types (cells acc : gset (Z * Z * Z)) (c n b : Z * Z * Z) (d : t).

Lemma elem_of_scan_neighbor3 cells acc n c :
  c ∈ scan_neighbor cells acc n ↔ c ∈ acc ∨ (c = n ∧ Spec.addable3 cells n).
Proof.
  unfold scan_neighbor, Spec.addable3. destruct n as [[nx ny] nz]; simpl.
  repeat case_bool_decide; simpl; set_solver.
Qed.

Lemma elem_of_scan_neighbors3 cells l acc c :
  c ∈ foldl (scan_neighbor cells) acc l ↔ c ∈ acc ∨ (c ∈ l ∧ Spec.addable3 cells c).
Proof.
  revert acc. induction l as [|n l IH]; intros acc; simpl.
  - set_solver.
  - rewrite IH, elem_of_scan_neighbor3, elem_of_cons. naive_solver.
Qed.

Lemma elem_of_get_addable_cells3 d c :
  c ∈ get_addable_cells d ↔
  (∃ b, b ∈ _boundary_cells d ∧ c ∈ neighbors b) ∧ Spec.addable3 (cells d) c.
Proof.
  unfold get_addable_cells.
  apply (set_fold_ind_L (λ acc X, c ∈ acc ↔ (∃ b, b ∈ X ∧ c ∈ neighbors b) ∧ _)).
  - set_solver.
  - intros b X acc _ IH. rewrite elem_of_scan_neighbors3, IH. set_solver.
Qed.

Lemma get_addable_cells_addable3 d c :
  c ∈ get_addable_cells d → Spec.addable3 (cells d) c.
Proof. rewrite elem_of_get_addable_cells3. tauto. Qed.

Lemma elem_of_boundary3 cells x y z :
  (x, y, z) ∈ _calculate_boundary_cells cells ↔
  ((x + 1, y, z) ∉ cells ∨ (x, y + 1, z) ∉ cells ∨ (x, y, z + 1) ∉ cells) ∧
  (x, y, z) ∈ cells.
Proof. unfold _calculate_boundary_cells. by rewrite elem_of_filter. Qed.

Lemma init_consistent3 ini : Spec.consistent3 (__init__ ini).
Proof. reflexivity. Qed.


Lemma add_cell_ideal3 d c :
  Spec.order_ideal3 (cells d) → Spec.addable3 (cells d) c →
  Spec.order_ideal3 (cells (add_cell d c)).
Proof.
  intros Hid (Hnot & Hx & Hy & Hz). destruct c as [[cx cy] cz]; simpl in *.
  assert (0 ≤ cx) as Hcx by (destruct Hx as [->|Hx]; [lia|]; apply Hid in Hx; lia).
  assert (0 ≤ cy) as Hcy by (destruct Hy as [->|Hy]; [lia|]; apply Hid in Hy; lia).
  assert (0 ≤ cz) as Hcz by (destruct Hz as [->|Hz]; [lia|]; apply Hid in Hz; lia).
  intros x y z [Heq%elem_of_singleton | Hin]%elem_of_union.
  - injection Heq as -> -> ->. do 3 (split; [done|]).
    intros x' y' z' Hx' Hy' Hz'.
    destruct (decide (x' = cx)) as [->|Hnx];
      [destruct (decide (y' = cy)) as [->|Hny];
        [destruct (decide (z' = cz)) as [->|Hnz]|]|].
    + set_solver.
    + destruct Hz as [->|Hz]; [lia|]. apply elem_of_union; right.
      apply (Hid _ _ _ Hz); lia.
    + destruct Hy as [->|Hy]; [lia|]. apply elem_of_union; right.
      apply (Hid _ _ _ Hy); lia.
    + destruct Hx as [->|Hx]; [lia|]. apply elem_of_union; right.
      apply (Hid _ _ _ Hx); lia.
  - destruct (Hid _ _ _ Hin) as (? & ? & ? & Hdown). do 3 (split; [done|]).
    intros x' y' z' Hx' Hy' Hz'. apply elem_of_union; right. by apply Hdown.
Qed.

Lemma addable_found3 d c :
  Spec.consistent3 d → cells d ≠ ∅ → Spec.order_ideal3 (cells d) →
  Spec.addable3 (cells d) c → c ∈ get_addable_cells d.
Proof.
  intros Hcons Hne Hid Hadd. apply elem_of_get_addable_cells3. split; [|done].
  destruct Hadd as (Hnot & Hx & Hy & Hz). destruct c as [[cx cy] cz]; simpl in *.
  assert ((0, 0, 0) ∈ cells d) as H00.
  { apply set_choose_L in Hne as [[[x y] z] Hin].
    destruct (Hid _ _ _ Hin) as (? & ? & ? & Hdown). apply Hdown; lia. }
  rewrite Hcons.
  destruct Hx as [->|Hx]; [destruct Hy as [->|Hy]; [destruct Hz as [->|Hz]|]|].
  - done.
  - exists (0, 0, cz - 1). split.
    + apply elem_of_boundary3. split; [|done]. right; right.
      by replace (cz - 1 + 1) with cz by lia.
    + simpl. replace (cz - 1 + 1) with cz by lia. set_solver.
  - exists (0, cy - 1, cz). split.
    + apply elem_of_boundary3. split; [|done]. right; left.
      by replace (cy - 1 + 1) with cy by lia.
    + simpl. replace (cy - 1 + 1) with cy by lia. set_solver.
  - exists (cx - 1, cy, cz). split.
    + apply elem_of_boundary3. split; [|done]. left.
      by replace (cx - 1 + 1) with cx by lia.
    + simpl. replace (cx - 1 + 1) with cx by lia. set_solver.
Qed.

End Diagram3D_addable.

(** ** Three dimensions: the growth loop *)
Section Diagram3D_simulate.
Import Diagram3D.
Implicit Types (d : t) (c : Z * Z * Z) (rng : nat → nat).

Lemma simulate_loop_step3 rng step todo d :
  get_addable_cells d ≠ ∅ →
  ∃ c, c ∈ get_addable_cells d ∧
       simulate_loop rng step (S todo) d = simulate_loop rng (S step) todo (add_cell d c).
Proof.
  intros Hne. destruct (random_choices_elements (rng step) _ Hne) as (c & Hc & Hin).
  exists c. split; [done|]. simpl. rewrite decide_False by done. by rewrite Hc.
Qed.

(** The policy on exhaustion: the loop is left at the current step, with
    a warning, and the diagram stays as it is. *)
Lemma simulate_loop_exhausted3 rng step todo d :
  get_addable_cells d = ∅ →
  simulate_loop rng step (S todo) d = (Returned (Some step), d).
Proof. intros He. simpl. by rewrite decide_True. Qed.

Lemma simulate_loop_app3 rng step k m d :
  simulate_loop rng step (k + m) d =
  match simulate_loop rng step k d with
  | (Returned None, d') => simulate_loop rng (step + k) m d'
  | other => other
  end.
Proof.
  revert step d. induction k as [|k IH]; intros step d.
  - simpl. by rewrite Nat.add_0_r.
  - cbn [Nat.add simulate_loop]. case_decide; [done|].
    destruct (random_choices _ _); [|done].
    rewrite IH. by replace (S step + k)%nat with (step + S k)%nat by lia.
Qed.

Lemma simulate_loop_invariant3 (P : t → Prop) rng step todo d :
  (∀ d c, P d → c ∈ get_addable_cells d → P (add_cell d c)) →
  P d → P (simulate_loop rng step todo d).2.
Proof.
  intros Hadd. revert step d. induction todo as [|todo IH]; intros step d HP; [done|].
  simpl. case_decide; [done|].
  destruct (random_choices _ _) as [c|] eqn:Hc; [|done].
  apply IH, Hadd; [done|]. by apply random_choices_elem, elem_of_elements in Hc.
Qed.

Lemma simulate_loop_ideal3 rng step todo d :
  Spec.order_ideal3 (cells d) → Spec.order_ideal3 (cells (simulate_loop rng step todo d).2).
Proof.
  apply (simulate_loop_invariant3 (λ d, Spec.order_ideal3 (cells d))).
  intros d' c Hid Hc. by apply add_cell_ideal3, get_addable_cells_addable3.
Qed.

Lemma add_cell_size3 d c :
  c ∈ get_addable_cells d → size (add_cell d c) = S (size d).
Proof.
  intros (Hnot & _)%get_addable_cells_addable3. by apply size_add_fresh.
Qed.

(** A run that was not cut short added one cell per iteration; a run cut
    short at step [k] added [k - step] cells. *)
Lemma simulate_loop_size3 rng step todo d w d' :
  simulate_loop rng step todo d = (Returned w, d') →
  match w with
  | None => size d' = (size d + todo)%nat
  | Some k => (step ≤ k < step + todo)%nat ∧ size d' = (size d + (k - step))%nat
  end.
Proof.
  revert step d. induction todo as [|todo IH]; intros step d; simpl.
  - intros [= <- <-]. lia.
  - case_decide.
    + intros [= <- <-]. lia.
    + destruct (random_choices _ _) as [c|] eqn:Hc; [|done].
      intros Hrun. apply IH in Hrun.
      rewrite add_cell_size3 in Hrun
        by (by apply random_choices_elem, elem_of_elements in Hc).
      destruct w; lia.
Qed.




End Diagram3D_simulate.

(** ** The invariant of the growth state *)

Lemma order_ideal2_origin : Spec.order_ideal2 {[ (0, 0) ]}.
Proof.
  intros x y [= -> ->]%elem_of_singleton. do 2 (split; [done|]).
  intros x' y' ??. replace x' with 0 by lia. replace y' with 0 by lia. set_solver.
Qed.

Lemma order_ideal3_origin : Spec.order_ideal3 {[ (0, 0, 0) ]}.
Proof.
  intros x y z [= -> -> ->]%elem_of_singleton. do 3 (split; [done|]).
  intros x' y' z' ???.
  replace x' with 0 by lia. replace y' with 0 by lia. replace z' with 0 by lia. set_solver.
Qed.

(** C1. In two and in three dimensions: if [cells] is a downward-closed
    order ideal and [c] is one of [get_addable_cells()], then after
    [add_cell(c)] the set [cells] is again a downward-closed order ideal; and
    so it is after any number [k] of iterations of the loop of [simulate],
    hence after every cell [simulate] adds, and when [simulate] ends. *)
Theorem C1_add_keeps_order_ideal :
  (∀ (d : Diagram2D.t) c,
     Spec.order_ideal2 (Diagram2D.cells d) → c ∈ Diagram2D.get_addable_cells d →
     Spec.order_ideal2 (Diagram2D.cells (Diagram2D.add_cell d c))) ∧
  (∀ (d : Diagram3D.t) c,
     Spec.order_ideal3 (Diagram3D.cells d) → c ∈ Diagram3D.get_addable_cells d →
     Spec.order_ideal3 (Diagram3D.cells (Diagram3D.add_cell d c))) ∧
  (∀ rng n_steps alpha (d : Diagram2D.t) k,
     Spec.order_ideal2 (Diagram2D.cells d) →
     Spec.order_ideal2 (Diagram2D.cells (Diagram2D.simulate_loop rng 0 k d).2) ∧
     Spec.order_ideal2 (Diagram2D.cells (Diagram2D.simulate rng n_steps alpha d).2)) ∧
  (∀ rng n_steps alpha (d : Diagram3D.t) k,
     Spec.order_ideal3 (Diagram3D.cells d) →
     Spec.order_ideal3 (Diagram3D.cells (Diagram3D.simulate_loop rng 0 k d).2) ∧
     Spec.order_ideal3 (Diagram3D.cells (Diagram3D.simulate rng n_steps alpha d).2)).
Proof.
  split; [|split; [|split]].
  - intros d c Hid Hc. by apply add_cell_ideal2, get_addable_cells_addable2.
  - intros d c Hid Hc. by apply add_cell_ideal3, get_addable_cells_addable3.
  - intros rng n_steps alpha d k Hid. split; [by apply simulate_loop_ideal2|].
    unfold Diagram2D.simulate. case_bool_decide; [done|]. by apply simulate_loop_ideal2.
  - intros rng n_steps alpha d k Hid. split; [by apply simulate_loop_ideal3|].
    unfold Diagram3D.simulate. case_bool_decide; [done|].
    destruct (Qle_bool alpha 0); [done|]. by apply simulate_loop_ideal3.
Qed.

Lemma C1_add_keeps_order_ideal_witness :
  Spec.order_ideal2 (Diagram2D.cells (Diagram2D.add_cell (Diagram2D.__init__ None) (1, 0))) ∧
  Spec.order_ideal3
    (Diagram3D.cells (Diagram3D.add_cell (Diagram3D.__init__ None) (0, 0, 1))) ∧
  Spec.order_ideal2
    (Diagram2D.cells (Diagram2D.simulate (λ _, 1%nat) 3 1%Q (Diagram2D.__init__ None)).2) ∧
  Spec.order_ideal3
    (Diagram3D.cells (Diagram3D.simulate (λ _, 2%nat) 3 1%Q (Diagram3D.__init__ None)).2).
Proof.
  destruct C1_add_keeps_order_ideal as (H2 & H3 & Hs2 & Hs3).
  split; [|split; [|split]].
  - apply H2; [apply order_ideal2_origin|].
    eapply (bool_decide_unpack _). vm_compute. exact I.
  - apply H3; [apply order_ideal3_origin|].
    eapply (bool_decide_unpack _). vm_compute. exact I.
  - apply (Hs2 _ _ _ _ O), order_ideal2_origin.
  - apply (Hs3 _ _ _ _ O), order_ideal3_origin.
Defined.

(** C5. On a non-empty downward-closed cell set, in two and in three
    dimensions, [get_addable_cells()], which scans the forward neighbours of
    the boundary cells computed from the cells, returns exactly the cells
    [c] with [c ∉ cells] and, on every axis, [c_i = 0] or [c − e_i ∈ cells];
    and its result never meets [cells]. *)
Theorem C5_addable_cells_refines_definition :
  (∀ (d : Diagram2D.t),
     Spec.consistent2 d → Diagram2D.cells d ≠ ∅ → Spec.order_ideal2 (Diagram2D.cells d) →
     (∀ c, c ∈ Diagram2D.get_addable_cells d ↔ Spec.addable2 (Diagram2D.cells d) c) ∧
     Diagram2D.get_addable_cells d ## Diagram2D.cells d) ∧
  (∀ (d : Diagram3D.t),
     Spec.consistent3 d → Diagram3D.cells d ≠ ∅ → Spec.order_ideal3 (Diagram3D.cells d) →
     (∀ c, c ∈ Diagram3D.get_addable_cells d ↔ Spec.addable3 (Diagram3D.cells d) c) ∧
     Diagram3D.get_addable_cells d ## Diagram3D.cells d).
Proof.
  split.
  - intros d Hcons Hne Hid. split.
    + intros c. split; [apply get_addable_cells_addable2 | by apply addable_found2].
    + intros c Hc Hin. by apply get_addable_cells_addable2 in Hc as [Hnot _].
  - intros d Hcons Hne Hid. split.
    + intros c. split; [apply get_addable_cells_addable3 | by apply addable_found3].
    + intros c Hc Hin. by apply get_addable_cells_addable3 in Hc as [Hnot _].
Qed.

Lemma C5_addable_cells_refines_definition_witness :
  ((∀ c, c ∈ Diagram2D.get_addable_cells (Diagram2D.__init__ None) ↔
         Spec.addable2 (Diagram2D.cells (Diagram2D.__init__ None)) c) ∧
   Diagram2D.get_addable_cells (Diagram2D.__init__ None) ##
     Diagram2D.cells (Diagram2D.__init__ None)) ∧
  ((∀ c, c ∈ Diagram3D.get_addable_cells (Diagram3D.__init__ None) ↔
         Spec.addable3 (Diagram3D.cells (Diagram3D.__init__ None)) c) ∧
   Diagram3D.get_addable_cells (Diagram3D.__init__ None) ##
     Diagram3D.cells (Diagram3D.__init__ None)).
Proof.
  destruct C5_addable_cells_refines_definition as (H2 & H3). split.
  - apply H2; [reflexivity | by vm_compute | apply order_ideal2_origin].
  - apply H3; [reflexivity | by vm_compute | apply order_ideal3_origin].
Defined.

(** ** Exhaustion of the candidates *)

(** C3. When the set of addable cells is empty at some step [k] of a run,
    reached after [k] completed iterations, [Diagram2D.simulate] raises the
    [ValueError] of that step, whereas [Diagram3D.simulate] returns, having
    logged its warning at that step; both leave the diagram as grown so
    far. *)
Theorem C3_exhaustion_policies :
  (∀ rng n_steps alpha (d d_k : Diagram2D.t) (k : nat),
     Z.of_nat k < n_steps →
     Diagram2D.simulate_loop rng 0 k d = (Returned None, d_k) →
     Diagram2D.get_addable_cells d_k = ∅ →
     Diagram2D.simulate rng n_steps alpha d = (Raised (ValueError_no_addable k), d_k)) ∧
  (∀ rng n_steps alpha (d d_k : Diagram3D.t) (k : nat),
     Z.of_nat k < n_steps → Qle_bool alpha 0 = false →
     Diagram3D.simulate_loop rng 0 k d = (Returned None, d_k) →
     Diagram3D.get_addable_cells d_k = ∅ →
     Diagram3D.simulate rng n_steps alpha d = (Returned (Some k), d_k)).
Proof.
  split.
  - intros rng n_steps alpha d d_k k Hk Hrun He.
    unfold Diagram2D.simulate. rewrite bool_decide_eq_false_2 by lia.
    replace (Z.to_nat n_steps) with (k + S (Z.to_nat n_steps - S k))%nat by lia.
    rewrite simulate_loop_app2, Hrun. by apply simulate_loop_exhausted2.
  - intros rng n_steps alpha d d_k k Hk Halpha Hrun He.
    unfold Diagram3D.simulate. rewrite bool_decide_eq_false_2 by lia. rewrite Halpha.
    replace (Z.to_nat n_steps) with (k + S (Z.to_nat n_steps - S k))%nat by lia.
    rewrite simulate_loop_app3, Hrun. by apply simulate_loop_exhausted3.
Qed.

Lemma C3_exhaustion_policies_witness :
  Diagram2D.simulate (λ _, O) 4 1%Q (Diagram2D.__init__ (Some {[ (5, 5) ]})) =
    (Raised (ValueError_no_addable 0), Diagram2D.__init__ (Some {[ (5, 5) ]})) ∧
  Diagram3D.simulate (λ _, O) 4 1%Q (Diagram3D.__init__ (Some {[ (5, 5, 5) ]})) =
    (Returned (Some O), Diagram3D.__init__ (Some {[ (5, 5, 5) ]})).
Proof.
  destruct C3_exhaustion_policies as (H2 & H3). split.
  - apply (H2 _ _ _ _ _ O); [lia | reflexivity | by vm_compute].
  - apply (H3 _ _ _ _ _ O); [lia | reflexivity | reflexivity | by vm_compute].
Defined.



(** C10. If [Diagram2D.simulate(n_steps, alpha)] returns without raising,
    [size()] is exactly [n_steps] larger than before, each step adding a cell
    that was not in [cells].  If [Diagram3D.simulate(n_steps, alpha)]
    returns, [size()] has grown by at most [n_steps], and by exactly
    [n_steps] when no step found the addable set empty. *)
Theorem C10_simulate_size :
  (∀ (d : Diagram2D.t) c,
     c ∈ Diagram2D.get_addable_cells d →
     (c ∉ Diagram2D.cells d) ∧
     Diagram2D.size (Diagram2D.add_cell d c) = S (Diagram2D.size d)) ∧
  (∀ rng n_steps alpha (d d' : Diagram2D.t) w,
     Diagram2D.simulate rng n_steps alpha d = (Returned w, d') →
     Z.of_nat (Diagram2D.size d') = Z.of_nat (Diagram2D.size d) + n_steps) ∧
  (∀ rng n_steps alpha (d d' : Diagram3D.t) w,
     Diagram3D.simulate rng n_steps alpha d = (Returned w, d') →
     Z.of_nat (Diagram3D.size d) ≤ Z.of_nat (Diagram3D.size d')
       ≤ Z.of_nat (Diagram3D.size d) + n_steps ∧
     (w = None → Z.of_nat (Diagram3D.size d') = Z.of_nat (Diagram3D.size d) + n_steps)).
Proof.
  split; [|split].
  - intros d c Hc. split; [|by apply add_cell_size2].
    by apply get_addable_cells_addable2 in Hc as [Hnot _].
  - intros rng n_steps alpha d d' w. unfold Diagram2D.simulate.
    case_bool_decide; [done|]. intros Hrun%simulate_loop_size2. lia.
  - intros rng n_steps alpha d d' w. unfold Diagram3D.simulate.
    case_bool_decide; [done|]. destruct (Qle_bool alpha 0); [done|].
    intros Hrun%simulate_loop_size3. destruct w as [k|].
    + split; [lia | done].
    + split; [lia | intros _; lia].
Qed.

Lemma C10_simulate_size_witness :
  (((1, 0) ∉ Diagram2D.cells (Diagram2D.__init__ None)) ∧
   Diagram2D.size (Diagram2D.add_cell (Diagram2D.__init__ None) (1, 0)) =
     S (Diagram2D.size (Diagram2D.__init__ None))) ∧
  Z.of_nat (Diagram2D.size
    (Diagram2D.simulate (λ n, n) 2 1%Q (Diagram2D.__init__ None)).2) =
    Z.of_nat (Diagram2D.size (Diagram2D.__init__ None)) + 2 ∧
  Z.of_nat (Diagram3D.size
    (Diagram3D.simulate (λ n, n) 2 1%Q (Diagram3D.__init__ None)).2) =
    Z.of_nat (Diagram3D.size (Diagram3D.__init__ None)) + 2.
Proof.
  destruct C10_simulate_size as (Ha & H2 & H3). split; [|split].
  - apply Ha. eapply (bool_decide_unpack _). vm_compute. exact I.
  - eapply (H2 (λ n, n) 2 1%Q _ _ None). vm_compute. reflexivity.
  - eapply (H3 (λ n, n) 2 1%Q _ _ None); [vm_compute; reflexivity | reflexivity].
Defined.

(** ** The frequency map of the aggregators *)
Section Counting.
Import Spec.
Context `{Countable K}.
Implicit Types (counts : gmap K Z) (cells : gset K) (completed : list (gset K)).

(** After [for cell in cells: counts[cell] += 1]. *)
Lemma lookup_count_cells cells counts c :
  count_cells cells counts !! c =
  if decide (c ∈ cells) then Some (default 0 (counts !! c) + 1) else counts !! c.
Proof.
  unfold count_cells.
  set (P := λ (acc : gmap K Z) (X : gset K),
    acc !! c = if decide (c ∈ X) then Some (default 0 (counts !! c) + 1) else counts !! c).
  change (P (set_fold incr counts cells) cells). apply (set_fold_ind_L P); unfold P.
  - by rewrite decide_False by set_solver.
  - intros x X acc Hx IH. unfold incr. destruct (decide (c = x)) as [->|Hne].
    + rewrite lookup_insert_eq, decide_True by set_solver.
      assert (acc !! x = counts !! x) as ->; [|done].
      specialize (IH). by rewrite decide_False in IH.
    + rewrite lookup_insert_ne by done. rewrite IH.
      destruct (decide (c ∈ X)).
      * by rewrite decide_True by set_solver.
      * by rewrite decide_False by set_solver.
Qed.

Lemma counted_empty : counted (K := K) ∅ [].
Proof. intros c v. by rewrite lookup_empty. Qed.

Lemma counted_count_cells counts completed cells :
  counted counts completed →
  counted (count_cells cells counts) (completed ++ [cells]).
Proof.
  intros Hinv c v. rewrite lookup_count_cells, length_app. simpl.
  destruct (decide (c ∈ cells)) as [Hc|Hc].
  - intros [= <-]. split.
    + destruct (counts !! c) as [v0|] eqn:Hv0; simpl; [|lia].
      apply Hinv in Hv0 as [? _]. lia.
    + exists cells. split; [|done]. apply elem_of_app. right. by left.
  - intros Hv. apply Hinv in Hv as (? & s & Hs & Hcs). split; [lia|].
    exists s. split; [|done]. apply elem_of_app. by left.
Qed.

End Counting.

Section Aggregators.
Import Spec.
Implicit Types (rng : nat → nat → nat) (w : option nat).

Lemma run_loop_counted2 rng n_steps alpha run todo ini counts completed w :
  let res := DiagramSimulator2D.run_loop rng n_steps alpha run todo ini counts completed in
  counted counts completed →
  Simulator.res_outcome res = Returned w →
  counted (Simulator.res_counts res) (Simulator.res_completed res) ∧
  length (Simulator.res_completed res) = (length completed + todo)%nat.
Proof.
  revert run ini counts completed.
  induction todo as [|todo IH]; intros run ini counts completed; simpl.
  - intros Hinv _. split; [done | lia].
  - destruct (Diagram2D.simulate _ _ _ _) as [[w'|e] diagram]; simpl; [|done].
    intros Hinv Hres. destruct (IH _ _ _ _ (counted_count_cells _ _ _ Hinv) Hres) as [? Hlen].
    split; [done|]. rewrite Hlen, length_app. simpl. lia.
Qed.

Lemma run_loop_counted3 rng n_steps alpha run todo ini counts completed w :
  let res := DiagramSimulator3D.run_loop rng n_steps alpha run todo ini counts completed in
  counted counts completed →
  Simulator.res_outcome res = Returned w →
  counted (Simulator.res_counts res) (Simulator.res_completed res) ∧
  length (Simulator.res_completed res) = (length completed + todo)%nat.
Proof.
  revert run ini counts completed.
  induction todo as [|todo IH]; intros run ini counts completed; simpl.
  - intros Hinv _. split; [done | lia].
  - destruct (Diagram3D.simulate _ _ _ _) as [[w'|e] diagram]; simpl; [|done].
    intros Hinv Hres. destruct (IH _ _ _ _ (counted_count_cells _ _ _ Hinv) Hres) as [? Hlen].
    split; [done|]. rewrite Hlen, length_app. simpl. lia.
Qed.

End Aggregators.

(** C2. For every call [simulate(n_steps, alpha, runs)] of an aggregator,
    2D or 3D, that returns: every value of [total_cell_counts] is an integer
    between 1 and [runs], every key is a cell of the diagram of a completed
    run, and [runs] runs were completed. *)
Theorem C2_frequency_map_range :
  (∀ rng n_steps alpha runs initial_cells previous w,
     let res := DiagramSimulator2D.simulate rng n_steps alpha runs initial_cells previous in
     Simulator.res_outcome res = Returned w →
     Z.of_nat (length (Simulator.res_completed res)) = runs ∧
     ∀ c v, Simulator.res_counts res !! c = Some v →
       1 ≤ v ≤ runs ∧ ∃ s, s ∈ Simulator.res_completed res ∧ c ∈ s) ∧
  (∀ rng n_steps alpha runs initial_cells previous w,
     let res := DiagramSimulator3D.simulate rng n_steps alpha runs initial_cells previous in
     Simulator.res_outcome res = Returned w →
     Z.of_nat (length (Simulator.res_completed res)) = runs ∧
     ∀ c v, Simulator.res_counts res !! c = Some v →
       1 ≤ v ≤ runs ∧ ∃ s, s ∈ Simulator.res_completed res ∧ c ∈ s).
Proof.
  split.
  - intros rng n_steps alpha runs ini previous w. cbv zeta.
    unfold DiagramSimulator2D.simulate.
    case_bool_decide; [done|]. case_bool_decide; [done|].
    destruct (Qle_bool alpha 0); [done|]. intros Hres.
    destruct (run_loop_counted2 rng n_steps alpha 1 (Z.to_nat runs) ini ∅ [] w
                counted_empty Hres) as [Hinv Hlen].
    simpl in Hlen. split; [lia|].
    intros c v Hv. apply Hinv in Hv as [? ?]. split; [lia | done].
  - intros rng n_steps alpha runs ini previous w. cbv zeta.
    unfold DiagramSimulator3D.simulate.
    case_bool_decide; [done|]. case_bool_decide; [done|]. intros Hres.
    destruct (run_loop_counted3 rng n_steps alpha 1 (Z.to_nat runs) ini ∅ [] w
                counted_empty Hres) as [Hinv Hlen].
    simpl in Hlen. split; [lia|].
    intros c v Hv. apply Hinv in Hv as [? ?]. split; [lia | done].
Qed.

Lemma C2_frequency_map_range_witness :
  (1 ≤ 2 ≤ 2 ∧
   ∃ s, s ∈ Simulator.res_completed
              (DiagramSimulator2D.simulate (λ _ n, n) 2 1%Q 2 None ∅) ∧ (0, 0) ∈ s) ∧
  (1 ≤ 2 ≤ 2 ∧
   ∃ s, s ∈ Simulator.res_completed
              (DiagramSimulator3D.simulate (λ _ n, n) 2 1%Q 2 None ∅) ∧ (0, 0, 0) ∈ s).
Proof.
  destruct C2_frequency_map_range as (H2 & H3). split.
  - refine (proj2 (H2 (λ _ n, n) 2 1%Q 2 None ∅ None _) (0, 0) 2 _);
      vm_compute; reflexivity.
  - refine (proj2 (H3 (λ _ n, n) 2 1%Q 2 None ∅ None _) (0, 0, 0) 2 _);
      vm_compute; reflexivity.
Defined.

(** ** Validation of the parameters of the aggregators *)

(** The 3D aggregator called with [alpha = 0] on an object that holds the
    counts [{(0,0,0): 1}]: the call raises, and the counts are gone. *)
Lemma C4_counterexample :
  let previous : gmap (Z * Z * Z) Z := {[ (0, 0, 0) := 1 ]} in
  let res := DiagramSimulator3D.simulate (λ _ _, O) 1 0%Q 1 None previous in
  (0 <= 0)%Q ∧
  Simulator.res_outcome res = Raised ValueError_alpha ∧
  Simulator.res_counts res = ∅ ∧
  Simulator.res_counts res ≠ previous.
Proof. cbv zeta. split; [apply Qle_refl|]. by vm_compute. Qed.

(** C4, amended. [DiagramSimulator2D.simulate] raises an InvalidParameter
    error whenever [n_steps ≤ 0], [runs ≤ 0] or [alpha ≤ 0], before it resets
    [total_cell_counts], which such a call leaves unchanged.
    [DiagramSimulator3D.simulate] does so whenever [n_steps ≤ 0] or
    [runs ≤ 0]; with positive [n_steps] and [runs] and [alpha ≤ 0] it raises
    the InvalidParameter error of [Diagram3D.simulate] in its first run,
    after the reset: [total_cell_counts] is then empty. *)
Theorem C4_validation_and_reset :
  (∀ rng n_steps alpha runs initial_cells previous,
     n_steps ≤ 0 ∨ runs ≤ 0 ∨ (alpha <= 0)%Q →
     let res := DiagramSimulator2D.simulate rng n_steps alpha runs initial_cells previous in
     (∃ e, Simulator.res_outcome res = Raised e ∧ InvalidParameter e) ∧
     Simulator.res_counts res = previous) ∧
  (∀ rng n_steps alpha runs initial_cells previous,
     n_steps ≤ 0 ∨ runs ≤ 0 →
     let res := DiagramSimulator3D.simulate rng n_steps alpha runs initial_cells previous in
     (∃ e, Simulator.res_outcome res = Raised e ∧ InvalidParameter e) ∧
     Simulator.res_counts res = previous) ∧
  (∀ rng n_steps alpha runs initial_cells previous,
     0 < n_steps → 0 < runs → (alpha <= 0)%Q →
     let res := DiagramSimulator3D.simulate rng n_steps alpha runs initial_cells previous in
     Simulator.res_outcome res = Raised ValueError_alpha ∧
     InvalidParameter ValueError_alpha ∧
     Simulator.res_counts res = ∅).
Proof.
  unfold InvalidParameter. split; [|split].
  - intros rng n_steps alpha runs ini previous Hbad. cbv zeta.
    unfold DiagramSimulator2D.simulate.
    case_bool_decide; [naive_solver|]. case_bool_decide; [naive_solver|].
    destruct Hbad as [?|[?|Halpha]]; [lia..|].
    apply Qle_bool_iff in Halpha as ->. naive_solver.
  - intros rng n_steps alpha runs ini previous Hbad. cbv zeta.
    unfold DiagramSimulator3D.simulate.
    case_bool_decide; [naive_solver|]. case_bool_decide; [naive_solver|]. lia.
  - intros rng n_steps alpha runs ini previous Hn Hr Halpha. cbv zeta.
    unfold DiagramSimulator3D.simulate.
    rewrite !bool_decide_eq_false_2 by lia.
    destruct (Z.to_nat runs) as [|todo] eqn:Hruns; [lia|].
    simpl. unfold Diagram3D.simulate. rewrite bool_decide_eq_false_2 by lia.
    apply Qle_bool_iff in Halpha as ->. simpl. naive_solver.
Qed.

Lemma C4_validation_and_reset_witness :
  let previous2 : gmap (Z * Z) Z := {[ (0, 0) := 3 ]} in
  let previous3 : gmap (Z * Z * Z) Z := {[ (0, 0, 0) := 3 ]} in
  ((∃ e, Simulator.res_outcome
           (DiagramSimulator2D.simulate (λ _ n, n) 5 (-1)%Q 2 None previous2) = Raised e ∧
         InvalidParameter e) ∧
   Simulator.res_counts
     (DiagramSimulator2D.simulate (λ _ n, n) 5 (-1)%Q 2 None previous2) = previous2) ∧
  ((∃ e, Simulator.res_outcome
           (DiagramSimulator3D.simulate (λ _ n, n) 0 1%Q 2 None previous3) = Raised e ∧
         InvalidParameter e) ∧
   Simulator.res_counts
     (DiagramSimulator3D.simulate (λ _ n, n) 0 1%Q 2 None previous3) = previous3) ∧
  (Simulator.res_outcome
     (DiagramSimulator3D.simulate (λ _ n, n) 5 (-1)%Q 2 None previous3)
     = Raised ValueError_alpha ∧
   InvalidParameter ValueError_alpha ∧
   Simulator.res_counts
     (DiagramSimulator3D.simulate (λ _ n, n) 5 (-1)%Q 2 None previous3) = ∅).
Proof.
  cbv zeta. destruct C4_validation_and_reset as (H2 & H3 & H3a). split; [|split].
  - apply H2. right; right. by vm_compute.
  - apply H3. left. lia.
  - apply H3a; [lia | lia | by vm_compute].
Defined.

(** ** The weight function *)
Section Weights.
Open Scope R_scope.










End Weights.



(** ** The scaling factor of the limit shape *)
Section Scaling.
Import Utils Spec.

Lemma foldl_max_spec (t : list Z) (h : Z) :
  foldl Z.max h t ∈ h :: t ∧ ∀ x, x ∈ h :: t → x ≤ foldl Z.max h t.
Proof.
  revert h. induction t as [|a t IH]; intros h; simpl.
  - split; [by left|]. intros x ->%list_elem_of_singleton. lia.
  - destruct (IH (Z.max h a)) as [Hin Hmax]. split.
    + apply elem_of_cons in Hin as [Heq|Hin]; [|by do 2 right].
      rewrite Heq. destruct (Z.max_spec h a) as [[_ ->]|[_ ->]]; [right|]; by left.
    + intros x Hx.
      assert (Z.max h a ≤ foldl Z.max (Z.max h a) t) by (apply Hmax; by left).
      apply elem_of_cons in Hx as [->|[->|Hx]%elem_of_cons]; [lia | lia |].
      apply Hmax. by right.
Qed.

Lemma py_max_spec (l : list Z) :
  l ≠ [] → ∃ n, py_max l = Some n ∧ n ∈ l ∧ ∀ x, x ∈ l → x ≤ n.
Proof.
  destruct l as [|h t]; [done|]. intros _. exists (foldl Z.max h t).
  split; [done|]. apply foldl_max_spec.
Qed.

Lemma mapM_total {A B} (f : A → option B) (g : A → B) (l : list A) :
  (∀ x, x ∈ l → f x = Some (g x)) → mapM f l = Some (g <$> l).
Proof.
  induction l as [|a l IH]; intros Hf; [done|]. simpl.
  rewrite (Hf a) by (by left). simpl. rewrite IH; [done|].
  intros x Hx. apply Hf. by right.
Qed.

Lemma elem_of_keys (cell_counts : gmap (list Z) Z) (key : list Z) :
  key ∈ (map_to_list cell_counts).*1 ↔ is_Some (cell_counts !! key).
Proof.
  rewrite list_elem_of_fmap. split.
  - intros ([k v] & -> & Hkv%elem_of_map_to_list). by exists v.
  - intros [v Hv]. exists (key, v). split; [done|]. by apply elem_of_map_to_list.
Qed.

(** The generator under [max] yields the maximal extent. *)
Lemma max_extent_spec (f : list Z → option Z) (cell_counts : gmap (list Z) Z) :
  cell_counts ≠ ∅ →
  (∀ key, is_Some (cell_counts !! key) → f key = Some (extent key)) →
  ∃ n, max_extent f cell_counts = Some n ∧ is_max_extent cell_counts n.
Proof.
  intros Hne Hf. unfold max_extent.
  rewrite (mapM_total f extent) by (intros key Hk; by apply Hf, elem_of_keys).
  simpl.
  destruct (py_max_spec (extent <$> (map_to_list cell_counts).*1)) as (n & Hn & Hin & Hmax).
  { intros Hnil. apply fmap_nil_inv, fmap_nil_inv in Hnil.
    by apply map_to_list_empty_iff in Hnil. }
  exists n. split; [done|]. split.
  - apply list_elem_of_fmap in Hin as (key & -> & Hkey). exists key.
    split; [by apply elem_of_keys | done].
  - intros key Hkey. apply Hmax, list_elem_of_fmap. exists key.
    split; [done | by apply elem_of_keys].
Qed.

Lemma sum2_extent (key : list Z) : length key = 2%nat → sum2 key = Some (extent key).
Proof.
  destruct key as [|x [|y [|??]]]; try done. intros _. simpl. f_equal. lia.
Qed.

Lemma sum3_extent (key : list Z) : length key = 3%nat → sum3 key = Some (extent key).
Proof.
  destruct key as [|x [|y [|z [|??]]]]; try done. intros _. simpl. f_equal. lia.
Qed.

Lemma extent_nonneg (key : list Z) : Forall (λ x, 0 ≤ x) key → 0 ≤ extent key.
Proof. induction 1; simpl; lia. Qed.

Lemma le_zero_Finite (r : R) : le_zero (Finite r) = true ↔ (r <= 0)%R.
Proof. simpl. by destruct (Rle_dec r 0). Qed.

(** [cbrt] is the cube root. *)
Lemma cbrt_cube (x : R) : (cbrt x * cbrt x * cbrt x = x)%R.
Proof.
  assert (∀ y : R, (0 < y → Rpower y (/ 3) * Rpower y (/ 3) * Rpower y (/ 3) = y)%R) as Hp.
  { intros y Hy. rewrite <- !Rpower_plus.
    replace (/ 3 + / 3 + / 3)%R with 1%R by lra. by apply Rpower_1. }
  unfold cbrt. destruct (Rlt_dec 0 x) as [Hpos|Hnpos]; [by apply Hp|].
  destruct (Rlt_dec x 0) as [Hneg|Hnneg]; [|lra].
  specialize (Hp (- x)%R). lra.
Qed.

Lemma cbrt_0 : cbrt 0 = 0%R.
Proof.
  unfold cbrt. destruct (Rlt_dec 0 0); [lra|]. destruct (Rlt_dec 0 0); [lra | done].
Qed.

End Scaling.

(** C7. [compute_limit_shape] raises when the map is empty.  On a
    non-empty map of cells of ℕ^d, with [dimensions = d] in {2, 3}: when no
    [scaling_factor] is given the factor resolves to the square root (d = 2)
    or the cube root (d = 3) of the maximum over the cells of the sum of the
    coordinates; a given factor replaces this default; and the call raises
    the InvalidParameter error exactly when the resolved factor is ≤ 0, as
    for the map that holds only the origin. *)
Theorem C7_limit_shape_scaling_factor :
  (∀ scaling_factor dimensions,
     Utils.compute_limit_shape ∅ scaling_factor dimensions = inl ValueError_no_data) ∧
  (∀ cell_counts dimensions,
     cell_counts ≠ ∅ → dimensions = 2 ∨ dimensions = 3 →
     (∀ key, is_Some (cell_counts !! key) → Spec.is_cell dimensions key) →
     ∃ n, Spec.is_max_extent cell_counts n ∧
       let default := if bool_decide (dimensions = 2) then sqrt (IZR n)
                      else Utils.cbrt (IZR n) in
       Utils.compute_limit_shape cell_counts None dimensions =
         if Rle_dec default 0 then inl ValueError_scaling
         else inr (Utils.Finite default)) ∧
  (∀ cell_counts dimensions r,
     cell_counts ≠ ∅ → dimensions = 2 ∨ dimensions = 3 →
     Utils.compute_limit_shape cell_counts (Some (Utils.Finite r)) dimensions =
       if Rle_dec r 0 then inl ValueError_scaling else inr (Utils.Finite r)) ∧
  InvalidParameter ValueError_scaling ∧
  (∀ x : R, (Utils.cbrt x * Utils.cbrt x * Utils.cbrt x = x)%R) ∧
  Utils.compute_limit_shape {[ [0; 0] := 1 ]} None 2 = inl ValueError_scaling ∧
  Utils.compute_limit_shape {[ [0; 0; 0] := 1 ]} None 3 = inl ValueError_scaling.
Proof.
  assert (∀ cell_counts dimensions,
     cell_counts ≠ ∅ → dimensions = 2 ∨ dimensions = 3 →
     (∀ key, is_Some (cell_counts !! key) → Spec.is_cell dimensions key) →
     ∃ n, Spec.is_max_extent cell_counts n ∧
       let default := if bool_decide (dimensions = 2) then sqrt (IZR n)
                      else Utils.cbrt (IZR n) in
       Utils.compute_limit_shape cell_counts None dimensions =
         if Rle_dec default 0 then inl ValueError_scaling
         else inr (Utils.Finite default)) as Hdefault.
  { intros m dims Hne Hdims Hcells. unfold Utils.compute_limit_shape.
    rewrite decide_False by done.
    destruct Hdims as [-> | ->]; simpl.
    - destruct (max_extent_spec Utils.sum2 m Hne) as (n & -> & Hmax).
      { intros key [Hlen _]%Hcells. apply sum2_extent. lia. }
      exists n. split; [done|].
      assert (0 ≤ n) as Hn.
      { destruct Hmax as [(key & [_ Hpos]%Hcells & <-) _]. by apply extent_nonneg. }
      unfold Utils.np_sqrt. rewrite bool_decide_eq_false_2 by lia. simpl.
      by destruct (Rle_dec _ _).
    - destruct (max_extent_spec Utils.sum3 m Hne) as (n & -> & Hmax).
      { intros key [Hlen _]%Hcells. apply sum3_extent. lia. }
      exists n. split; [done|]. simpl. by destruct (Rle_dec _ _). }
  split; [|split; [|split; [|split; [|split; [|split]]]]].
  - done.
  - exact Hdefault.
  - intros m dims r Hne Hdims. unfold Utils.compute_limit_shape.
    rewrite decide_False by done.
    destruct Hdims as [-> | ->]; simpl; by destruct (Rle_dec _ _).
  - unfold InvalidParameter. tauto.
  - apply cbrt_cube.
  - destruct (Hdefault {[ [0; 0] := 1 ]} 2) as (n & [(key & Hkey & Hn) _] & ->).
    + apply insert_non_empty.
    + by left.
    + intros key [v [<- _]%lookup_singleton_Some]. split; [done|]. by repeat constructor.
    + destruct Hkey as [v [<- _]%lookup_singleton_Some]. simpl in Hn. subst n.
      change (0 + (0 + 0)) with 0. cbv zeta. rewrite bool_decide_eq_true_2 by done.
      rewrite sqrt_0. destruct (Rle_dec 0 0); [done | lra].
  - destruct (Hdefault {[ [0; 0; 0] := 1 ]} 3) as (n & [(key & Hkey & Hn) _] & ->).
    + apply insert_non_empty.
    + by right.
    + intros key [v [<- _]%lookup_singleton_Some]. split; [done|]. by repeat constructor.
    + destruct Hkey as [v [<- _]%lookup_singleton_Some]. simpl in Hn. subst n.
      change (0 + (0 + (0 + 0))) with 0. cbv zeta. rewrite bool_decide_eq_false_2 by done.
      rewrite cbrt_0. destruct (Rle_dec 0 0); [done | lra].
Qed.

Lemma C7_limit_shape_scaling_factor_witness :
  (∃ n, Spec.is_max_extent {[ [1; 2] := 4 ]} n ∧
     Utils.compute_limit_shape {[ [1; 2] := 4 ]} None 2 =
       if Rle_dec (sqrt (IZR n)) 0 then inl ValueError_scaling
       else inr (Utils.Finite (sqrt (IZR n)))) ∧
  Utils.compute_limit_shape {[ [1; 2] := 4 ]} (Some (Utils.Finite 2)) 2 =
    if Rle_dec 2 0 then inl ValueError_scaling else inr (Utils.Finite 2).
Proof.
  destruct C7_limit_shape_scaling_factor as (_ & Hdefault & Hgiven & _). split.
  - apply (Hdefault {[ [1; 2] := 4 ]} 2).
    + apply insert_non_empty.
    + by left.
    + intros key [v [<- _]%lookup_singleton_Some]. split; [reflexivity|].
      repeat constructor; lia.
  - apply Hgiven; [apply insert_non_empty | by left].
Defined.

(** ** Snapshots *)

Lemma load_save_state `{Countable K} `{!Pickle (gmap string (gmap K Z))}
    (counts other : gmap K Z) (filename : string) (files : gmap string bytes) :
  (Simulator.save_state counts filename files).1 = Returned None ∧
  Simulator.load_state other filename (Simulator.save_state counts filename files).2
    = (Returned None, counts).
Proof.
  split; [done|]. unfold Simulator.load_state, Simulator.save_state. simpl.
  rewrite lookup_insert_eq, pickle_load_dump. by rewrite lookup_singleton_eq.
Qed.

(** C8. For every frequency map, on either aggregator and with any
    serialiser that reads back what it wrote: [save_state(filename)] returns,
    and [load_state(filename)] on the files it leaves returns and sets
    [total_cell_counts] to the very map that was saved, whatever the loading
    object held before. *)
Theorem C8_snapshot_round_trip :
  (∀ (P : Pickle (gmap string (gmap (Z * Z) Z))) counts other filename files,
     (DiagramSimulator2D.save_state counts filename files).1 = Returned None ∧
     DiagramSimulator2D.load_state other filename
       (DiagramSimulator2D.save_state counts filename files).2 = (Returned None, counts)) ∧
  (∀ (P : Pickle (gmap string (gmap (Z * Z * Z) Z))) counts other filename files,
     (DiagramSimulator3D.save_state counts filename files).1 = Returned None ∧
     DiagramSimulator3D.load_state other filename
       (DiagramSimulator3D.save_state counts filename files).2 = (Returned None, counts)).
Proof.
  split; intros P counts other filename files; apply load_save_state.
Qed.

Lemma C8_snapshot_round_trip_witness :
  DiagramSimulator2D.load_state ∅ "state.pkl"
    (DiagramSimulator2D.save_state {[ (0, 0) := 2; (1, 0) := 1 ]} "state.pkl" ∅).2
    = (Returned None, {[ (0, 0) := 2; (1, 0) := 1 ]}) ∧
  DiagramSimulator3D.load_state ∅ "state.pkl"
    (DiagramSimulator3D.save_state {[ (0, 0, 0) := 2; (0, 0, 1) := 1 ]} "state.pkl" ∅).2
    = (Returned None, {[ (0, 0, 0) := 2; (0, 0, 1) := 1 ]}).
Proof.
  destruct C8_snapshot_round_trip as (H2 & H3). split.
  - apply (H2 countable_pickle).
  - apply (H3 countable_pickle).
Defined.

(** * Further properties of the growth engine *)

Section Engine_outcomes.
Implicit Types (rng : nat → nat).

(** The loop ends normally or at a step without candidates; the draw never
    fails. *)
Lemma simulate_loop_outcome2 rng step todo (d : Diagram2D.t) :
  (Diagram2D.simulate_loop rng step todo d).1 = Returned None ∨
  ∃ k, (step ≤ k < step + todo)%nat ∧
       (Diagram2D.simulate_loop rng step todo d).1 = Raised (ValueError_no_addable k).
Proof.
  revert step d. induction todo as [|todo IH]; intros step d; [by left|].
  destruct (decide (Diagram2D.get_addable_cells d = ∅)) as [He|Hne].
  - right. exists step. split; [lia|]. by rewrite simulate_loop_exhausted2.
  - destruct (simulate_loop_step2 rng step todo d Hne) as (c & _ & ->).
    destruct (IH (S step) (Diagram2D.add_cell d c)) as [?|(k & ? & ?)]; [by left|].
    right. exists k. split; [lia | done].
Qed.

Lemma simulate_loop_outcome3 rng step todo (d : Diagram3D.t) :
  (Diagram3D.simulate_loop rng step todo d).1 = Returned None ∨
  ∃ k, (step ≤ k < step + todo)%nat ∧
       (Diagram3D.simulate_loop rng step todo d).1 = Returned (Some k).
Proof.
  revert step d. induction todo as [|todo IH]; intros step d; [by left|].
  destruct (decide (Diagram3D.get_addable_cells d = ∅)) as [He|Hne].
  - right. exists step. split; [lia|]. by rewrite simulate_loop_exhausted3.
  - destruct (simulate_loop_step3 rng step todo d Hne) as (c & _ & ->).
    destruct (IH (S step) (Diagram3D.add_cell d c)) as [?|(k & ? & ?)]; [by left|].
    right. exists k. split; [lia | done].
Qed.

(** Where the loop stops for want of candidates, the diagram has no
    candidate and has gained one cell per completed step. *)
Lemma simulate_loop_stopped2 rng step todo (d d' : Diagram2D.t) k :
  Diagram2D.simulate_loop rng step todo d = (Raised (ValueError_no_addable k), d') →
  (step ≤ k)%nat ∧ Diagram2D.get_addable_cells d' = ∅ ∧
  Diagram2D.size d' = (Diagram2D.size d + (k - step))%nat.
Proof.
  revert step d. induction todo as [|todo IH]; intros step d; [done|].
  destruct (decide (Diagram2D.get_addable_cells d = ∅)) as [He|Hne].
  - rewrite simulate_loop_exhausted2 by done. intros [= <- <-].
    split; [lia|]. split; [done | lia].
  - destruct (simulate_loop_step2 rng step todo d Hne) as (c & Hc & ->).
    intros (? & ? & Hsize)%IH. rewrite add_cell_size2 in Hsize by done.
    split; [lia|]. split; [done | lia].
Qed.

Lemma simulate_loop_stopped3 rng step todo (d d' : Diagram3D.t) k :
  Diagram3D.simulate_loop rng step todo d = (Returned (Some k), d') →
  (step ≤ k)%nat ∧ Diagram3D.get_addable_cells d' = ∅ ∧
  Diagram3D.size d' = (Diagram3D.size d + (k - step))%nat.
Proof.
  revert step d. induction todo as [|todo IH]; intros step d; [done|].
  destruct (decide (Diagram3D.get_addable_cells d = ∅)) as [He|Hne].
  - rewrite simulate_loop_exhausted3 by done. intros [= <- <-].
    split; [lia|]. split; [done | lia].
  - destruct (simulate_loop_step3 rng step todo d Hne) as (c & Hc & ->).
    intros (? & ? & Hsize)%IH. rewrite add_cell_size3 in Hsize by done.
    split; [lia|]. split; [done | lia].
Qed.

(** The loop only adds cells, and leaves the boundary the one computed from
    the cells. *)
Lemma simulate_loop_grows2 rng step todo (d : Diagram2D.t) :
  Diagram2D.cells d ⊆ Diagram2D.cells (Diagram2D.simulate_loop rng step todo d).2.
Proof.
  apply (simulate_loop_invariant2 (λ d', Diagram2D.cells d ⊆ Diagram2D.cells d'));
    [|done].
  intros d' c Hsub _. simpl. set_solver.
Qed.

Lemma simulate_loop_grows3 rng step todo (d : Diagram3D.t) :
  Diagram3D.cells d ⊆ Diagram3D.cells (Diagram3D.simulate_loop rng step todo d).2.
Proof.
  apply (simulate_loop_invariant3 (λ d', Diagram3D.cells d ⊆ Diagram3D.cells d'));
    [|done].
  intros d' c Hsub _. simpl. set_solver.
Qed.

Lemma simulate_loop_consistent2 rng step todo (d : Diagram2D.t) :
  Spec.consistent2 d → Spec.consistent2 (Diagram2D.simulate_loop rng step todo d).2.
Proof. apply (simulate_loop_invariant2 Spec.consistent2). intros; reflexivity. Qed.

Lemma simulate_loop_consistent3 rng step todo (d : Diagram3D.t) :
  Spec.consistent3 d → Spec.consistent3 (Diagram3D.simulate_loop rng step todo d).2.
Proof. apply (simulate_loop_invariant3 Spec.consistent3). intros; reflexivity. Qed.

Lemma simulate_grows2 rng n_steps alpha (d : Diagram2D.t) :
  Diagram2D.cells d ⊆ Diagram2D.cells (Diagram2D.simulate rng n_steps alpha d).2.
Proof.
  unfold Diagram2D.simulate. case_bool_decide; [done|]. apply simulate_loop_grows2.
Qed.

Lemma simulate_grows3 rng n_steps alpha (d : Diagram3D.t) :
  Diagram3D.cells d ⊆ Diagram3D.cells (Diagram3D.simulate rng n_steps alpha d).2.
Proof.
  unfold Diagram3D.simulate. case_bool_decide; [done|].
  destruct (Qle_bool alpha 0); [done|]. apply simulate_loop_grows3.
Qed.

Lemma simulate_consistent2 rng n_steps alpha (d : Diagram2D.t) :
  Spec.consistent2 d → Spec.consistent2 (Diagram2D.simulate rng n_steps alpha d).2.
Proof.
  unfold Diagram2D.simulate. case_bool_decide; [done|]. apply simulate_loop_consistent2.
Qed.

Lemma simulate_consistent3 rng n_steps alpha (d : Diagram3D.t) :
  Spec.consistent3 d → Spec.consistent3 (Diagram3D.simulate rng n_steps alpha d).2.
Proof.
  unfold Diagram3D.simulate. case_bool_decide; [done|].
  destruct (Qle_bool alpha 0); [done|]. apply simulate_loop_consistent3.
Qed.

Lemma init_nonempty2 ini : Diagram2D.cells (Diagram2D.__init__ ini) ≠ ∅.
Proof.
  unfold Diagram2D.__init__. destruct ini as [s|]; simpl; [|set_solver].
  case_decide; [set_solver | done].
Qed.

Lemma init_nonempty3 ini : Diagram3D.cells (Diagram3D.__init__ ini) ≠ ∅.
Proof.
  unfold Diagram3D.__init__. destruct ini as [s|]; simpl; [|set_solver].
  case_decide; [set_solver | done].
Qed.

End Engine_outcomes.

Lemma Qle_bool_false (alpha : Q) : (0 < alpha)%Q → Qle_bool alpha 0 = false.
Proof.
  intros Hpos. destruct (Qle_bool alpha 0) eqn:Hle; [|done].
  apply Qle_bool_iff in Hle. by apply Qlt_not_le in Hpos.
Qed.



(** X2. Exhaustion keeps the progress made.  When [Diagram2D.simulate]
    raises the exhaustion error of step [k], or [Diagram3D.simulate] returns
    after its warning at step [k], then [k < n_steps], the diagram left
    behind has no addable cell, contains the diagram before the call, and
    has exactly [k] cells more. *)
Theorem X2_exhaustion_keeps_progress :
  (∀ rng n_steps alpha (d d' : Diagram2D.t) (k : nat),
     Diagram2D.simulate rng n_steps alpha d = (Raised (ValueError_no_addable k), d') →
     Z.of_nat k < n_steps ∧
     Diagram2D.get_addable_cells d' = ∅ ∧
     Diagram2D.cells d ⊆ Diagram2D.cells d' ∧
     Diagram2D.size d' = (Diagram2D.size d + k)%nat) ∧
  (∀ rng n_steps alpha (d d' : Diagram3D.t) (k : nat),
     Diagram3D.simulate rng n_steps alpha d = (Returned (Some k), d') →
     Z.of_nat k < n_steps ∧
     Diagram3D.get_addable_cells d' = ∅ ∧
     Diagram3D.cells d ⊆ Diagram3D.cells d' ∧
     Diagram3D.size d' = (Diagram3D.size d + k)%nat).
Proof.
  split.
  - intros rng n_steps alpha d d' k Hrun.
    assert (Diagram2D.cells d ⊆ Diagram2D.cells d') as Hsub.
    { pose proof (simulate_grows2 rng n_steps alpha d) as Hg. by rewrite Hrun in Hg. }
    revert Hrun. unfold Diagram2D.simulate. case_bool_decide; [done|]. intros Hrun.
    destruct (simulate_loop_outcome2 rng 0 (Z.to_nat n_steps) d) as [Hoc|(k' & Hk' & Hoc)];
      rewrite Hrun in Hoc; simplify_eq/=.
    apply simulate_loop_stopped2 in Hrun as (_ & He & Hsize).
    split; [lia|]. split; [done|]. split; [done|]. lia.
  - intros rng n_steps alpha d d' k Hrun.
    assert (Diagram3D.cells d ⊆ Diagram3D.cells d') as Hsub.
    { pose proof (simulate_grows3 rng n_steps alpha d) as Hg. by rewrite Hrun in Hg. }
    revert Hrun. unfold Diagram3D.simulate. case_bool_decide; [done|].
    destruct (Qle_bool alpha 0); [done|]. intros Hrun.
    destruct (simulate_loop_outcome3 rng 0 (Z.to_nat n_steps) d) as [Hoc|(k' & Hk' & Hoc)];
      rewrite Hrun in Hoc; simplify_eq/=.
    apply simulate_loop_stopped3 in Hrun as (_ & He & Hsize).
    split; [lia|]. split; [done|]. split; [done|]. lia.
Qed.

Lemma X2_exhaustion_keeps_progress_witness :
  let d2 := Diagram2D.__init__ (Some {[ (5, 5); (6, 4) ]}) in
  let d3 := Diagram3D.__init__ (Some {[ (5, 5, 5); (6, 4, 5); (6, 5, 4) ]}) in
  (Diagram2D.size (Diagram2D.simulate (λ _, O) 5 1%Q d2).2 = (Diagram2D.size d2 + 1)%nat) ∧
  (Diagram3D.size (Diagram3D.simulate (λ _, O) 5 1%Q d3).2 = (Diagram3D.size d3 + 1)%nat).
Proof.
  cbv zeta. destruct X2_exhaustion_keeps_progress as (H2 & H3). split.
  - refine (proj2 (proj2 (proj2 (H2 (λ _, O) 5 1%Q _ _ 1%nat _)))).
    vm_compute. reflexivity.
  - refine (proj2 (proj2 (proj2 (H3 (λ _, O) 5 1%Q _ _ 1%nat _)))).
    vm_compute. reflexivity.
Defined.

(** X3. A diagram built by [__init__] and grown by [simulate], however the
    run ends: its boundary is the one computed from its cells, it is not
    empty, and it contains the cells it started from — the caller's set when
    that set is non-empty, the origin when [initial_cells] is [None] or
    empty. *)
Theorem X3_diagram_grows_from_initial_cells :
  (∀ rng n_steps alpha initial_cells,
     let d' := (Diagram2D.simulate rng n_steps alpha (Diagram2D.__init__ initial_cells)).2 in
     Spec.consistent2 d' ∧ Diagram2D.cells d' ≠ ∅ ∧
     (∀ s, initial_cells = Some s → s ≠ ∅ → s ⊆ Diagram2D.cells d') ∧
     (initial_cells = None ∨ initial_cells = Some ∅ → (0, 0) ∈ Diagram2D.cells d')) ∧
  (∀ rng n_steps alpha initial_cells,
     let d' := (Diagram3D.simulate rng n_steps alpha (Diagram3D.__init__ initial_cells)).2 in
     Spec.consistent3 d' ∧ Diagram3D.cells d' ≠ ∅ ∧
     (∀ s, initial_cells = Some s → s ≠ ∅ → s ⊆ Diagram3D.cells d') ∧
     (initial_cells = None ∨ initial_cells = Some ∅ → (0, 0, 0) ∈ Diagram3D.cells d')).
Proof.
  split.
  - intros rng n_steps alpha ini d'.
    pose proof (simulate_grows2 rng n_steps alpha (Diagram2D.__init__ ini)) as Hsub.
    fold d' in Hsub. split; [|split; [|split]].
    + apply simulate_consistent2, init_consistent2.
    + pose proof (init_nonempty2 ini). set_solver.
    + intros s -> Hs. revert Hsub. unfold Diagram2D.__init__. simpl.
      by rewrite decide_False.
    + intros [-> | ->]; revert Hsub; unfold Diagram2D.__init__; simpl;
        rewrite ?decide_True by done; set_solver.
  - intros rng n_steps alpha ini d'.
    pose proof (simulate_grows3 rng n_steps alpha (Diagram3D.__init__ ini)) as Hsub.
    fold d' in Hsub. split; [|split; [|split]].
    + apply simulate_consistent3, init_consistent3.
    + pose proof (init_nonempty3 ini). set_solver.
    + intros s -> Hs. revert Hsub. unfold Diagram3D.__init__. simpl.
      by rewrite decide_False.
    + intros [-> | ->]; revert Hsub; unfold Diagram3D.__init__; simpl;
        rewrite ?decide_True by done; set_solver.
Qed.

Lemma X3_diagram_grows_from_initial_cells_witness :
  ({[ (3, 1) ]} : gset (Z * Z)) ⊆
    Diagram2D.cells
      (Diagram2D.simulate (λ n, n) 4 1%Q (Diagram2D.__init__ (Some {[ (3, 1) ]}))).2 ∧
  (0, 0, 0) ∈
    Diagram3D.cells
      (Diagram3D.simulate (λ n, n) 4 1%Q (Diagram3D.__init__ (Some ∅))).2.
Proof.
  destruct X3_diagram_grows_from_initial_cells as (H2 & H3). split.
  - refine (proj1 (proj2 (proj2 (H2 (λ n, n) 4 1%Q (Some {[ (3, 1) ]})))) _ eq_refl _).
    by vm_compute.
  - refine (proj2 (proj2 (proj2 (H3 (λ n, n) 4 1%Q (Some ∅)))) _). by right.
Defined.

(** ** The boundary *)

(** X4. [_calculate_boundary_cells] of a non-empty set of cells, order
    ideal or not, is a non-empty subset of it: a cell whose first coordinate
    is largest has no right neighbour.  So the scan of [get_addable_cells]
    always has at least one cell to start from, and at most as many as the
    diagram has. *)
Theorem X4_boundary_of_nonempty_diagram :
  (∀ cells : gset (Z * Z), cells ≠ ∅ →
     Diagram2D._calculate_boundary_cells cells ≠ ∅ ∧
     Diagram2D._calculate_boundary_cells cells ⊆ cells ∧
     (1 ≤ size (Diagram2D._calculate_boundary_cells cells) ≤ size cells)%nat) ∧
  (∀ cells : gset (Z * Z * Z), cells ≠ ∅ →
     Diagram3D._calculate_boundary_cells cells ≠ ∅ ∧
     Diagram3D._calculate_boundary_cells cells ⊆ cells ∧
     (1 ≤ size (Diagram3D._calculate_boundary_cells cells) ≤ size cells)%nat).
Proof.
  split.
  - intros cells Hne.
    assert (Diagram2D._calculate_boundary_cells cells ⊆ cells) as Hsub.
    { intros [x y] Hb. by apply elem_of_boundary2 in Hb as [_ ?]. }
    assert (Diagram2D._calculate_boundary_cells cells ≠ ∅) as Hb.
    { destruct (set_max_elem fst cells Hne) as ([mx my] & Hin & Hmax).
      intros He. apply (not_elem_of_empty (C := gset (Z * Z)) (mx, my)). rewrite <- He.
      apply elem_of_boundary2. split; [|done]. left.
      intros Hin'. apply Hmax in Hin'. simpl in Hin'. lia. }
    split; [done|]. split; [done|]. split; [|by apply subseteq_size].
    assert (size (Diagram2D._calculate_boundary_cells cells) ≠ 0%nat); [|lia].
    intros H0. by apply size_empty_inv, leibniz_equiv in H0.
  - intros cells Hne.
    assert (Diagram3D._calculate_boundary_cells cells ⊆ cells) as Hsub.
    { intros [[x y] z] Hb. by apply elem_of_boundary3 in Hb as [_ ?]. }
    assert (Diagram3D._calculate_boundary_cells cells ≠ ∅) as Hb.
    { destruct (set_max_elem (λ c, c.1.1) cells Hne) as ([[mx my] mz] & Hin & Hmax).
      intros He. apply (not_elem_of_empty (C := gset (Z * Z * Z)) (mx, my, mz)).
      rewrite <- He.
      apply elem_of_boundary3. split; [|done]. left.
      intros Hin'. apply Hmax in Hin'. simpl in Hin'. lia. }
    split; [done|]. split; [done|]. split; [|by apply subseteq_size].
    assert (size (Diagram3D._calculate_boundary_cells cells) ≠ 0%nat); [|lia].
    intros H0. by apply size_empty_inv, leibniz_equiv in H0.
Qed.

Lemma X4_boundary_of_nonempty_diagram_witness :
  Diagram2D._calculate_boundary_cells {[ (4, -2); (7, 7) ]} ≠ ∅ ∧
  Diagram3D._calculate_boundary_cells {[ (0, 0, 0); (1, 0, 0) ]} ≠ ∅.
Proof.
  destruct X4_boundary_of_nonempty_diagram as (H2 & H3). split.
  - apply H2. by vm_compute.
  - apply H3. by vm_compute.
Defined.

(** * Further properties of the aggregators *)

Section Frequencies.
Import Spec.
Context `{Countable K}.
Implicit Types (counts : gmap K Z) (cells : gset K) (completed : list (gset K)).

Lemma occurrences_nonneg (c : K) completed : 0 ≤ occurrences c completed.
Proof. unfold occurrences. lia. Qed.


Lemma occurrences_snoc (c : K) completed cells :
  occurrences c (completed ++ [cells]) =
  occurrences c completed + (if decide (c ∈ cells) then 1 else 0).
Proof.
  unfold occurrences. rewrite filter_app, length_app.
  rewrite filter_cons, filter_nil. destruct (decide (c ∈ cells)); simpl; lia.
Qed.



Lemma frequencies_empty : frequencies (K := K) ∅ [].
Proof. intros c. by rewrite lookup_empty. Qed.

Lemma frequencies_count_cells counts completed cells :
  frequencies counts completed →
  frequencies (count_cells cells counts) (completed ++ [cells]).
Proof.
  intros Hf c. rewrite lookup_count_cells, occurrences_snoc, (Hf c).
  pose proof (occurrences_nonneg c completed).
  destruct (decide (c ∈ cells)).
  - rewrite (decide_False (P := _ + 1 = 0)) by lia.
    destruct (decide (occurrences c completed = 0)) as [->|]; simpl; done.
  - by rewrite Z.add_0_r.
Qed.

End Frequencies.

Section Aggregator_runs.
Import Spec.
Implicit Types (rng : nat → nat → nat) (w : option nat).

(** The loop over the runs, however it ends: the counts are the
    frequencies among the completed runs; all the runs are completed when
    the loop returns, fewer when it raises. *)
Lemma run_loop_frequencies2 rng n_steps alpha run todo ini counts completed :
  let res := DiagramSimulator2D.run_loop rng n_steps alpha run todo ini counts completed in
  frequencies counts completed →
  frequencies (Simulator.res_counts res) (Simulator.res_completed res) ∧
  (∀ w, Simulator.res_outcome res = Returned w →
        length (Simulator.res_completed res) = (length completed + todo)%nat) ∧
  (∀ e, Simulator.res_outcome res = Raised e →
        (length (Simulator.res_completed res) < length completed + todo)%nat).
Proof.
  revert run ini counts completed.
  induction todo as [|todo IH]; intros run ini counts completed; simpl.
  - intros Hf. split; [done|]. split; [intros; lia | done].
  - destruct (Diagram2D.simulate _ _ _ _) as [[w'|e] diagram]; simpl.
    + intros Hf. destruct (IH (S run)
        (Simulator.grown ini (Diagram2D.cells diagram))
        (count_cells (Diagram2D.cells diagram) counts)
        (completed ++ [Diagram2D.cells diagram])
        (frequencies_count_cells _ _ _ Hf)) as (Hf' & Hret & Hraise).
      rewrite length_app in Hret, Hraise. simpl in Hret, Hraise.
      split; [done|]. split.
      * intros w Hw. rewrite (Hret w Hw). lia.
      * intros e He. specialize (Hraise e He). lia.
    + intros Hf. split; [done|]. split; [done | intros; lia].
Qed.

Lemma run_loop_frequencies3 rng n_steps alpha run todo ini counts completed :
  let res := DiagramSimulator3D.run_loop rng n_steps alpha run todo ini counts completed in
  frequencies counts completed →
  frequencies (Simulator.res_counts res) (Simulator.res_completed res) ∧
  (∀ w, Simulator.res_outcome res = Returned w →
        length (Simulator.res_completed res) = (length completed + todo)%nat) ∧
  (∀ e, Simulator.res_outcome res = Raised e →
        (length (Simulator.res_completed res) < length completed + todo)%nat).
Proof.
  revert run ini counts completed.
  induction todo as [|todo IH]; intros run ini counts completed; simpl.
  - intros Hf. split; [done|]. split; [intros; lia | done].
  - destruct (Diagram3D.simulate _ _ _ _) as [[w'|e] diagram]; simpl.
    + intros Hf. destruct (IH (S run)
        (Simulator.grown ini (Diagram3D.cells diagram))
        (count_cells (Diagram3D.cells diagram) counts)
        (completed ++ [Diagram3D.cells diagram])
        (frequencies_count_cells _ _ _ Hf)) as (Hf' & Hret & Hraise).
      rewrite length_app in Hret, Hraise. simpl in Hret, Hraise.
      split; [done|]. split.
      * intros w Hw. rewrite (Hret w Hw). lia.
      * intros e He. specialize (Hraise e He). lia.
    + intros Hf. split; [done|]. split; [done | intros; lia].
Qed.

End Aggregator_runs.

(** X5. What the frequency map holds after [simulate] of an aggregator got
    past the validation, however the call ends: the count of a cell is
    exactly the number of completed runs whose final diagram has the cell,
    and a cell of no completed run has no entry.  All [runs] runs are
    completed when the call returns; when it raises, fewer are, and the
    completed ones stay counted. *)
Theorem X5_counts_are_run_frequencies :
  (∀ rng n_steps alpha runs initial_cells previous,
     0 < n_steps → 0 < runs → (0 < alpha)%Q →
     let res := DiagramSimulator2D.simulate rng n_steps alpha runs initial_cells previous in
     Spec.frequencies (Simulator.res_counts res) (Simulator.res_completed res) ∧
     (∀ w, Simulator.res_outcome res = Returned w →
           Z.of_nat (length (Simulator.res_completed res)) = runs) ∧
     (∀ e, Simulator.res_outcome res = Raised e →
           Z.of_nat (length (Simulator.res_completed res)) < runs)) ∧
  (∀ rng n_steps alpha runs initial_cells previous,
     0 < n_steps → 0 < runs →
     let res := DiagramSimulator3D.simulate rng n_steps alpha runs initial_cells previous in
     Spec.frequencies (Simulator.res_counts res) (Simulator.res_completed res) ∧
     (∀ w, Simulator.res_outcome res = Returned w →
           Z.of_nat (length (Simulator.res_completed res)) = runs) ∧
     (∀ e, Simulator.res_outcome res = Raised e →
           Z.of_nat (length (Simulator.res_completed res)) < runs)).
Proof.
  split.
  - intros rng n_steps alpha runs ini previous Hn Hr Ha. cbv zeta.
    unfold DiagramSimulator2D.simulate.
    rewrite !bool_decide_eq_false_2 by lia. rewrite Qle_bool_false by done.
    destruct (run_loop_frequencies2 rng n_steps alpha 1 (Z.to_nat runs) ini ∅ []
                frequencies_empty) as (Hf & Hret & Hraise).
    simpl in Hret, Hraise. split; [done|]. split.
    + intros w Hw. rewrite (Hret w Hw). lia.
    + intros e He. specialize (Hraise e He). lia.
  - intros rng n_steps alpha runs ini previous Hn Hr. cbv zeta.
    unfold DiagramSimulator3D.simulate.
    rewrite !bool_decide_eq_false_2 by lia.
    destruct (run_loop_frequencies3 rng n_steps alpha 1 (Z.to_nat runs) ini ∅ []
                frequencies_empty) as (Hf & Hret & Hraise).
    simpl in Hret, Hraise. split; [done|]. split.
    + intros w Hw. rewrite (Hret w Hw). lia.
    + intros e He. specialize (Hraise e He). lia.
Qed.

Lemma X5_counts_are_run_frequencies_witness :
  Spec.frequencies
    (Simulator.res_counts (DiagramSimulator2D.simulate (λ _ n, n) 3 1%Q 2 None ∅))
    (Simulator.res_completed (DiagramSimulator2D.simulate (λ _ n, n) 3 1%Q 2 None ∅)) ∧
  Spec.frequencies
    (Simulator.res_counts (DiagramSimulator3D.simulate (λ _ n, n) 3 1%Q 2 None ∅))
    (Simulator.res_completed (DiagramSimulator3D.simulate (λ _ n, n) 3 1%Q 2 None ∅)).
Proof.
  destruct X5_counts_are_run_frequencies as (H2 & H3). split.
  - apply (H2 (λ _ n, n) 3 1%Q 2 None ∅); [lia | lia | reflexivity].
  - apply (H3 (λ _ n, n) 3 1%Q 2 None ∅); lia.
Defined.

Section Aggregator_ideals.
Import Spec.
Implicit Types (rng : nat → nat → nat).











End Aggregator_ideals.








Section Aggregator_sharing.
Implicit Types (rng : nat → nat → nat) (n_steps : Z) (alpha : Q) (run todo : nat).

Lemma simulate_returned_size2 (rng : nat → nat) n_steps alpha (d d' : Diagram2D.t) w :
  Diagram2D.simulate rng n_steps alpha d = (Returned w, d') →
  0 < n_steps ∧ Z.of_nat (Diagram2D.size d') = Z.of_nat (Diagram2D.size d) + n_steps.
Proof.
  unfold Diagram2D.simulate. case_bool_decide; [done|].
  intros Hrun%simulate_loop_size2. lia.
Qed.

Lemma simulate_returned_size3 (rng : nat → nat) n_steps alpha (d d' : Diagram3D.t) w :
  Diagram3D.simulate rng n_steps alpha d = (Returned w, d') →
  0 < n_steps ∧ Z.of_nat (Diagram3D.size d') ≤ Z.of_nat (Diagram3D.size d) + n_steps.
Proof.
  unfold Diagram3D.simulate. case_bool_decide; [done|].
  destruct (Qle_bool alpha 0); [done|].
  intros Hrun%simulate_loop_size3. destruct w; lia.
Qed.

Lemma grown_shared {K} `{Countable K} (s cells : gset K) :
  s ≠ ∅ → Simulator.grown (Some s) cells = Some cells.
Proof.
  intros Hs. unfold Simulator.grown, Simulator.shared.
  by rewrite bool_decide_eq_false_2.
Qed.

Lemma grown_unshared {K} `{Countable K} (ini : option (gset K)) (cells : gset K) :
  ini = None ∨ ini = Some ∅ → Simulator.grown ini cells = ini.
Proof.
  intros [-> | ->]; unfold Simulator.grown, Simulator.shared; [done|].
  by rewrite bool_decide_eq_true_2.
Qed.

(** Runs on a shared set: every run grows the set the previous one left. *)
Lemma run_loop_shared2 rng n_steps alpha run todo (s : gset (Z * Z))
    (counts : gmap (Z * Z) Z) (completed : list (gset (Z * Z))) :
  s ≠ ∅ →
  let res := DiagramSimulator2D.run_loop rng n_steps alpha run todo (Some s) counts completed in
  ∃ s' : gset (Z * Z), Simulator.res_initial_cells res = Some s' ∧ s ⊆ s' ∧
    ∀ w, Simulator.res_outcome res = Returned w →
      Z.of_nat (size s') = Z.of_nat (size s) + Z.of_nat todo * n_steps ∧
      (todo ≠ O → last (Simulator.res_completed res) = Some s').
Proof.
  revert run s counts completed.
  induction todo as [|todo IH]; intros run s counts completed Hs; simpl.
  - exists s. split; [done|]. split; [done|]. intros w _. split; [lia | done].
  - assert (Diagram2D.cells (Diagram2D.__init__ (Some s)) = s) as Hinit.
    { unfold Diagram2D.__init__. simpl. by rewrite decide_False. }
    pose proof (simulate_grows2 (rng run) n_steps alpha (Diagram2D.__init__ (Some s)))
      as Hsub. rewrite Hinit in Hsub.
    destruct (Diagram2D.simulate _ _ _ _) as [[w'|e] d'] eqn:Hrun; simpl in Hsub |- *.
    + apply simulate_returned_size2 in Hrun as [Hn Hsize].
      unfold Diagram2D.size in Hsize. rewrite Hinit in Hsize.
      rewrite grown_shared by done.
      assert (Diagram2D.cells d' ≠ ∅) as Hne'.
      { apply set_choose_L in Hs as [c Hc]. set_solver. }
      destruct (IH (S run) (Diagram2D.cells d')
                  (count_cells (Diagram2D.cells d') counts)
                  (completed ++ [Diagram2D.cells d']) Hne') as (s' & Hres & Hsub' & Hret).
      exists s'. split; [done|]. split; [set_solver|].
      intros w Hw. destruct (Hret w Hw) as [Hsize' Hlast]. split; [lia|].
      intros _. destruct todo as [|todo']; [|by apply Hlast].
      simpl in Hres |- *. rewrite last_snoc. congruence.
    + rewrite grown_shared by done. exists (Diagram2D.cells d').
      split; [done|]. split; [done|]. by intros w.
Qed.

Lemma run_loop_shared3 rng n_steps alpha run todo (s : gset (Z * Z * Z))
    (counts : gmap (Z * Z * Z) Z) (completed : list (gset (Z * Z * Z))) :
  s ≠ ∅ →
  let res := DiagramSimulator3D.run_loop rng n_steps alpha run todo (Some s) counts completed in
  ∃ s' : gset (Z * Z * Z), Simulator.res_initial_cells res = Some s' ∧ s ⊆ s' ∧
    ∀ w, Simulator.res_outcome res = Returned w →
      Z.of_nat (size s') ≤ Z.of_nat (size s) + Z.of_nat todo * n_steps ∧
      (todo ≠ O → last (Simulator.res_completed res) = Some s').
Proof.
  revert run s counts completed.
  induction todo as [|todo IH]; intros run s counts completed Hs; simpl.
  - exists s. split; [done|]. split; [done|]. intros w _. split; [lia | done].
  - assert (Diagram3D.cells (Diagram3D.__init__ (Some s)) = s) as Hinit.
    { unfold Diagram3D.__init__. simpl. by rewrite decide_False. }
    pose proof (simulate_grows3 (rng run) n_steps alpha (Diagram3D.__init__ (Some s)))
      as Hsub. rewrite Hinit in Hsub.
    destruct (Diagram3D.simulate _ _ _ _) as [[w'|e] d'] eqn:Hrun; simpl in Hsub |- *.
    + apply simulate_returned_size3 in Hrun as [Hn Hsize].
      unfold Diagram3D.size in Hsize. rewrite Hinit in Hsize.
      rewrite grown_shared by done.
      assert (Diagram3D.cells d' ≠ ∅) as Hne'.
      { apply set_choose_L in Hs as [c Hc]. set_solver. }
      destruct (IH (S run) (Diagram3D.cells d')
                  (count_cells (Diagram3D.cells d') counts)
                  (completed ++ [Diagram3D.cells d']) Hne') as (s' & Hres & Hsub' & Hret).
      exists s'. split; [done|]. split; [set_solver|].
      intros w Hw. destruct (Hret w Hw) as [Hsize' Hlast]. split; [lia|].
      intros _. destruct todo as [|todo']; [|by apply Hlast].
      simpl in Hres |- *. rewrite last_snoc. congruence.
    + rewrite grown_shared by done. exists (Diagram3D.cells d').
      split; [done|]. split; [done|]. by intros w.
Qed.

(** Runs on a fresh origin: the caller's argument is untouched and every
    completed run of the 2D engine has [1 + n_steps] cells. *)
Lemma run_loop_unshared2 rng n_steps alpha run todo (ini : option (gset (Z * Z)))
    (counts : gmap (Z * Z) Z) (completed : list (gset (Z * Z))) :
  ini = None ∨ ini = Some ∅ →
  Forall (λ c : gset (Z * Z), Z.of_nat (size c) = 1 + n_steps) completed →
  let res := DiagramSimulator2D.run_loop rng n_steps alpha run todo ini counts completed in
  Simulator.res_initial_cells res = ini ∧
  Forall (λ c : gset (Z * Z), Z.of_nat (size c) = 1 + n_steps) (Simulator.res_completed res).
Proof.
  intros Hini. revert run counts completed.
  induction todo as [|todo IH]; intros run counts completed Hall; simpl; [done|].
  assert (Diagram2D.size (Diagram2D.__init__ ini) = 1%nat) as Hinit.
  { assert (Diagram2D.cells (Diagram2D.__init__ ini) = {[ (0, 0) ]}) as Hcells.
    { unfold Diagram2D.__init__. destruct Hini as [-> | ->]; simpl; [done|].
      by rewrite decide_True. }
    unfold Diagram2D.size. rewrite Hcells. apply size_singleton. }
  destruct (Diagram2D.simulate _ _ _ _) as [[w'|e] d'] eqn:Hrun; simpl;
    rewrite grown_unshared by done; [|done].
  apply simulate_returned_size2 in Hrun as [Hn Hsize]. rewrite Hinit in Hsize.
  apply IH. apply Forall_app. split; [done|]. constructor; [|done].
  unfold Diagram2D.size in Hsize. lia.
Qed.

End Aggregator_sharing.

(** X8. The runs of one call share the caller's set.  When
    [initial_cells] is a non-empty set, every diagram is built on that very
    set and grows it in place: after [simulate] got past the validation the
    caller's set contains what it held before; when the call returns, the
    set is the diagram of the last run, and in two dimensions it has gained
    [runs * n_steps] cells (in three, at most that many) — each run went on
    from where the previous one stopped.  When [initial_cells] is [None] or
    empty, each run starts afresh from the origin, the argument is left as
    it was, and every completed 2D run has [1 + n_steps] cells. *)
Theorem X8_runs_share_initial_cells :
  (∀ rng n_steps alpha runs (s : gset (Z * Z)) previous,
     0 < n_steps → 0 < runs → (0 < alpha)%Q → s ≠ ∅ →
     let res := DiagramSimulator2D.simulate rng n_steps alpha runs (Some s) previous in
     ∃ s' : gset (Z * Z), Simulator.res_initial_cells res = Some s' ∧ s ⊆ s' ∧
       ∀ w, Simulator.res_outcome res = Returned w →
         Z.of_nat (size s') = Z.of_nat (size s) + runs * n_steps ∧
         last (Simulator.res_completed res) = Some s') ∧
  (∀ rng n_steps alpha runs (s : gset (Z * Z * Z)) previous,
     0 < n_steps → 0 < runs → (0 < alpha)%Q → s ≠ ∅ →
     let res := DiagramSimulator3D.simulate rng n_steps alpha runs (Some s) previous in
     ∃ s' : gset (Z * Z * Z), Simulator.res_initial_cells res = Some s' ∧ s ⊆ s' ∧
       ∀ w, Simulator.res_outcome res = Returned w →
         Z.of_nat (size s') ≤ Z.of_nat (size s) + runs * n_steps ∧
         last (Simulator.res_completed res) = Some s') ∧
  (∀ rng n_steps alpha runs (initial_cells : option (gset (Z * Z))) previous,
     0 < n_steps → 0 < runs → (0 < alpha)%Q →
     initial_cells = None ∨ initial_cells = Some ∅ →
     let res := DiagramSimulator2D.simulate rng n_steps alpha runs initial_cells previous in
     Simulator.res_initial_cells res = initial_cells ∧
     Forall (λ c : gset (Z * Z), Z.of_nat (size c) = 1 + n_steps)
            (Simulator.res_completed res)).
Proof.
  split; [|split].
  - intros rng n_steps alpha runs s previous Hn Hr Ha Hs. cbv zeta.
    unfold DiagramSimulator2D.simulate.
    rewrite !bool_decide_eq_false_2 by lia. rewrite Qle_bool_false by done.
    destruct (run_loop_shared2 rng n_steps alpha 1 (Z.to_nat runs) s ∅ [] Hs)
      as (s' & Hres & Hsub & Hret).
    exists s'. split; [done|]. split; [done|]. intros w Hw.
    destruct (Hret w Hw) as [Hsize Hlast]. split; [|apply Hlast; lia].
    rewrite Hsize. by rewrite Z2Nat.id by lia.
  - intros rng n_steps alpha runs s previous Hn Hr Ha Hs. cbv zeta.
    unfold DiagramSimulator3D.simulate.
    rewrite !bool_decide_eq_false_2 by lia.
    destruct (run_loop_shared3 rng n_steps alpha 1 (Z.to_nat runs) s ∅ [] Hs)
      as (s' & Hres & Hsub & Hret).
    exists s'. split; [done|]. split; [done|]. intros w Hw.
    destruct (Hret w Hw) as [Hsize Hlast]. split; [|apply Hlast; lia].
    by rewrite Z2Nat.id in Hsize by lia.
  - intros rng n_steps alpha runs ini previous Hn Hr Ha Hini. cbv zeta.
    unfold DiagramSimulator2D.simulate.
    rewrite !bool_decide_eq_false_2 by lia. rewrite Qle_bool_false by done.
    by apply run_loop_unshared2.
Qed.

Lemma X8_runs_share_initial_cells_witness :
  (∃ s' : gset (Z * Z),
     Simulator.res_initial_cells
       (DiagramSimulator2D.simulate (λ _ n, n) 2 1%Q 3 (Some {[ (0, 0) ]}) ∅) = Some s' ∧
     ({[ (0, 0) ]} : gset (Z * Z)) ⊆ s' ∧
     ∀ w, Simulator.res_outcome
            (DiagramSimulator2D.simulate (λ _ n, n) 2 1%Q 3 (Some {[ (0, 0) ]}) ∅)
          = Returned w →
       Z.of_nat (size s') = Z.of_nat (size ({[ (0, 0) ]} : gset (Z * Z))) + 3 * 2 ∧
       last (Simulator.res_completed
               (DiagramSimulator2D.simulate (λ _ n, n) 2 1%Q 3 (Some {[ (0, 0) ]}) ∅))
         = Some s') ∧
  Simulator.res_initial_cells (DiagramSimulator2D.simulate (λ _ n, n) 2 1%Q 3 None ∅) = None.
Proof.
  destruct X8_runs_share_initial_cells as (H2 & _ & Hfresh). split.
  - apply (H2 (λ _ n, n) 2 1%Q 3 {[ (0, 0) ]} ∅); [lia | lia | reflexivity | by vm_compute].
  - apply (Hfresh (λ _ n, n) 2 1%Q 3 None ∅); [lia | lia | reflexivity | by left].
Defined.

(** * Statistics and serialisation of [Diagram3D] *)

Section Diagram3D_data_facts.
Import Diagram3D_data Spec.

Lemma py_max_fmap_elements `{Countable A} (f : A → Z) (X : gset A) :
  X ≠ ∅ →
  ∃ n, Utils.py_max (f <$> elements X) = Some n ∧
       (∃ a, a ∈ X ∧ f a = n) ∧ ∀ a, a ∈ X → f a ≤ n.
Proof.
  intros HX. destruct (py_max_spec (f <$> elements X)) as (n & Hn & Hin & Hmax).
  { intros Hnil%fmap_nil_inv. by apply elements_empty_inv, leibniz_equiv in Hnil. }
  exists n. split; [done|]. split.
  - apply list_elem_of_fmap in Hin as (a & -> & Ha). exists a.
    split; [by apply elem_of_elements | done].
  - intros a Ha. apply Hmax, list_elem_of_fmap. exists a.
    split; [done | by apply elem_of_elements].
Qed.

Lemma boundary_subseteq3 (cells : gset (Z * Z * Z)) :
  Diagram3D._calculate_boundary_cells cells ⊆ cells.
Proof. intros [[x y] z] Hb. by apply elem_of_boundary3 in Hb as [_ ?]. Qed.

Lemma boundary_nonempty3 (cells : gset (Z * Z * Z)) :
  cells ≠ ∅ → Diagram3D._calculate_boundary_cells cells ≠ ∅.
Proof.
  intros Hne. destruct (set_max_elem (λ c, c.1.1) cells Hne) as ([[mx my] mz] & Hin & Hmax).
  intros He. apply (not_elem_of_empty (C := gset (Z * Z * Z)) (mx, my, mz)).
  rewrite <- He. apply elem_of_boundary3. split; [|done]. left.
  intros Hin'. apply Hmax in Hin'. simpl in Hin'. lia.
Qed.

Lemma size_nonempty `{Countable A} (X : gset A) : X ≠ ∅ → (1 ≤ size X)%nat.
Proof.
  intros HX. assert (size X ≠ 0%nat); [|lia].
  intros H0. by apply size_empty_inv, leibniz_equiv in H0.
Qed.

Lemma size_list_to_set_le `{Countable A} (l : list A) :
  (size (list_to_set l : gset A) ≤ length l)%nat.
Proof.
  induction l as [|a l IH]; [by rewrite list_to_set_nil, size_empty|].
  rewrite list_to_set_cons, size_union_alt, size_singleton. simpl.
  assert (size (list_to_set l ∖ {[ a ]} : gset A) ≤ size (list_to_set l : gset A))%nat
    by (apply subseteq_size; set_solver).
  lia.
Qed.

Lemma length_bind_const {A B} (f : A → list B) (l : list A) (k : nat) :
  (∀ a, length (f a) = k) → length (l ≫= f) = (length l * k)%nat.
Proof.
  intros Hf. induction l as [|a l IH]; [done|].
  rewrite bind_cons, length_app, IH, Hf. simpl. lia.
Qed.

Lemma length_box (mx my mz : Z) :
  0 ≤ mx → 0 ≤ my → 0 ≤ mz →
  Z.of_nat (length (box mx my mz)) = (mx + 1) * (my + 1) * (mz + 1).
Proof.
  intros Hx Hy Hz. unfold box.
  rewrite (length_bind_const _ _ (Z.to_nat (my + 1) * Z.to_nat (mz + 1))).
  - rewrite length_seqZ. nia.
  - intros x. rewrite (length_bind_const _ _ (Z.to_nat (mz + 1))).
    + by rewrite length_seqZ.
    + intros y. rewrite (length_bind_const _ _ 1).
      * rewrite length_seqZ. lia.
      * done.
Qed.

Lemma elem_of_box (mx my mz x y z : Z) :
  0 ≤ x ≤ mx → 0 ≤ y ≤ my → 0 ≤ z ≤ mz → (x, y, z) ∈ box mx my mz.
Proof.
  intros Hx Hy Hz. unfold box.
  apply list_elem_of_bind. exists x. split; [|apply elem_of_seqZ; lia].
  apply list_elem_of_bind. exists y. split; [|apply elem_of_seqZ; lia].
  apply list_elem_of_bind. exists z. split; [by left | apply elem_of_seqZ; lia].
Qed.

End Diagram3D_data_facts.

(** X9. [get_statistics] and [to_dict] never raise: [max] is only taken
    of a non-empty diagram.  [from_dict(to_dict(d))] is [d] again, cells and
    boundary, for every non-empty diagram whose boundary is the computed
    one; it is built on a new set and recomputes the boundary, whatever
    ["boundary_cells"] and ["statistics"] say.  A dictionary with no cells
    gives the diagram of the origin, not an empty one. *)
Theorem X9_to_dict_from_dict :
  (∀ self : Diagram3D.t,
     ∃ st, Diagram3D_data.get_statistics self = inr st ∧
       Diagram3D_data.to_dict self =
         inr (Diagram3D_data.mk_data (elements (Diagram3D.cells self))
                (elements (Diagram3D._boundary_cells self)) st)) ∧
  (∀ (self : Diagram3D.t) d,
     Spec.consistent3 self → Diagram3D.cells self ≠ ∅ →
     Diagram3D_data.to_dict self = inr d → Diagram3D_data.from_dict d = self) ∧
  (∀ cells boundary_cells statistics,
     let self := Diagram3D_data.from_dict
                   (Diagram3D_data.mk_data cells boundary_cells statistics) in
     Spec.consistent3 self ∧
     (cells = [] → self = Diagram3D.__init__ None) ∧
     (cells ≠ [] → Diagram3D.cells self = list_to_set cells)).
Proof.
  assert (∀ self : Diagram3D.t, ∃ st, Diagram3D_data.get_statistics self = inr st) as Hst.
  { intros self. unfold Diagram3D_data.get_statistics.
    destruct (decide (Diagram3D.cells self = ∅)) as [He|Hne]; [by eexists|].
    destruct (py_max_fmap_elements (λ c : Z * Z * Z, c.1.1) _ Hne) as (mx & -> & _).
    destruct (py_max_fmap_elements (λ c : Z * Z * Z, c.1.2) _ Hne) as (my & -> & _).
    destruct (py_max_fmap_elements (λ c : Z * Z * Z, c.2) _ Hne) as (mz & -> & _).
    by eexists. }
  split; [|split].
  - intros self. destruct (Hst self) as [st Hself]. exists st. split; [done|].
    unfold Diagram3D_data.to_dict. by rewrite Hself.
  - intros self d Hcons Hne. unfold Diagram3D_data.to_dict.
    destruct (Hst self) as [st ->]. intros [= <-].
    unfold Diagram3D_data.from_dict, Diagram3D.__init__. simpl.
    rewrite list_to_set_elements_L, decide_False by done.
    destruct self as [cells boundary]. unfold Spec.consistent3 in Hcons. simpl in *.
    by rewrite Hcons.
  - intros cells boundary_cells statistics self. split; [apply init_consistent3|]. split.
    + intros ->. unfold self, Diagram3D_data.from_dict, Diagram3D.__init__. simpl.
      by rewrite decide_True.
    + intros Hne. unfold self, Diagram3D_data.from_dict, Diagram3D.__init__. simpl.
      rewrite decide_False; [done|]. destruct cells as [|c cells]; [done|]. set_solver.
Qed.

Lemma X9_to_dict_from_dict_witness :
  match Diagram3D_data.to_dict (Diagram3D.add_cell (Diagram3D.__init__ None) (0, 1, 0)) with
  | inr d =>
      Diagram3D_data.from_dict d = Diagram3D.add_cell (Diagram3D.__init__ None) (0, 1, 0)
  | inl _ => False
  end.
Proof.
  destruct X9_to_dict_from_dict as (Hto & Hfrom & _).
  destruct (Hto (Diagram3D.add_cell (Diagram3D.__init__ None) (0, 1, 0))) as (st & _ & Hd).
  rewrite Hd. apply Hfrom; [reflexivity | by vm_compute | exact Hd].
Defined.

(** X10. [get_statistics] of a non-empty diagram: ["size"] is the number of
    cells, at least 1; ["boundary_size"] lies between 1 and ["size"] when the
    boundary is the computed one; each of ["max_coords"] is reached by a cell
    and bounds that coordinate of every cell; ["volume"] is the product of
    the three maxima plus one, and when no coordinate is negative it is at
    least ["size"]: the diagram fits in its bounding box. *)
Theorem X10_statistics_of_nonempty_diagram :
  ∀ self : Diagram3D.t, Diagram3D.cells self ≠ ∅ →
    ∃ mx my mz st,
      Diagram3D_data.get_statistics self = inr st ∧
      Diagram3D_data.st_max_coords st = (mx, my, mz) ∧
      Diagram3D_data.st_size st = size (Diagram3D.cells self) ∧
      (1 ≤ Diagram3D_data.st_size st)%nat ∧
      (Spec.consistent3 self →
         (1 ≤ Diagram3D_data.st_boundary_size st ≤ Diagram3D_data.st_size st)%nat) ∧
      (∀ x y z, (x, y, z) ∈ Diagram3D.cells self → x ≤ mx ∧ y ≤ my ∧ z ≤ mz) ∧
      (∃ c, c ∈ Diagram3D.cells self ∧ c.1.1 = mx) ∧
      (∃ c, c ∈ Diagram3D.cells self ∧ c.1.2 = my) ∧
      (∃ c, c ∈ Diagram3D.cells self ∧ c.2 = mz) ∧
      Diagram3D_data.st_volume st = (mx + 1) * (my + 1) * (mz + 1) ∧
      ((∀ x y z, (x, y, z) ∈ Diagram3D.cells self → 0 ≤ x ∧ 0 ≤ y ∧ 0 ≤ z) →
         Z.of_nat (Diagram3D_data.st_size st) ≤ Diagram3D_data.st_volume st).
Proof.
  intros self Hne. unfold Diagram3D_data.get_statistics. rewrite decide_False by done.
  destruct (py_max_fmap_elements (λ c : Z * Z * Z, c.1.1) _ Hne) as (mx & -> & Hx & Hmx).
  destruct (py_max_fmap_elements (λ c : Z * Z * Z, c.1.2) _ Hne) as (my & -> & Hy & Hmy).
  destruct (py_max_fmap_elements (λ c : Z * Z * Z, c.2) _ Hne) as (mz & -> & Hz & Hmz).
  exists mx, my, mz. eexists. split; [done|]. simpl.
  split; [done|]. split; [done|]. split; [by apply size_nonempty|]. split.
  { intros ->. split; [by apply size_nonempty, boundary_nonempty3|].
    apply subseteq_size, boundary_subseteq3. }
  split.
  { intros x y z Hin. split; [|split].
    - apply (Hmx _ Hin).
    - apply (Hmy _ Hin).
    - apply (Hmz _ Hin). }
  split; [done|]. split; [done|]. split; [done|]. split; [done|].
  intros Hpos.
  assert (0 ≤ mx) by (destruct Hx as ([[x y] z] & Hin & <-); apply Hpos in Hin; simpl; lia).
  assert (0 ≤ my) by (destruct Hy as ([[x y] z] & Hin & <-); apply Hpos in Hin; simpl; lia).
  assert (0 ≤ mz) by (destruct Hz as ([[x y] z] & Hin & <-); apply Hpos in Hin; simpl; lia).
  rewrite <- length_box by done.
  assert (Diagram3D.cells self ⊆ list_to_set (Spec.box mx my mz)) as Hsub.
  { intros [[x y] z] Hin. apply elem_of_list_to_set.
    destruct (Hpos _ _ _ Hin) as (? & ? & ?).
    pose proof (Hmx _ Hin). pose proof (Hmy _ Hin). pose proof (Hmz _ Hin). simpl in *.
    apply elem_of_box; lia. }
  apply subseteq_size in Hsub.
  pose proof (size_list_to_set_le (Spec.box mx my mz)). lia.
Qed.

Lemma X10_statistics_of_nonempty_diagram_witness :
  ∃ mx my mz st,
    Diagram3D_data.get_statistics (Diagram3D.__init__ (Some {[ (0, 0, 0); (1, 0, 0) ]}))
      = inr st ∧
    Diagram3D_data.st_max_coords st = (mx, my, mz) ∧
    (∃ c, c ∈ ({[ (0, 0, 0); (1, 0, 0) ]} : gset (Z * Z * Z)) ∧ c.1.1 = mx) ∧
    Diagram3D_data.st_volume st = (mx + 1) * (my + 1) * (mz + 1).
Proof.
  destruct (X10_statistics_of_nonempty_diagram
              (Diagram3D.__init__ (Some {[ (0, 0, 0); (1, 0, 0) ]})))
    as (mx & my & mz & st & Hst & Hmax & _ & _ & _ & _ & Hx & _ & _ & Hvol & _).
  { by vm_compute. }
  exists mx, my, mz, st. split; [exact Hst|]. split; [exact Hmax|].
  split; [exact Hx | exact Hvol].
Defined.

(** * Further properties of [compute_limit_shape] *)

Section Scaling_edges.
Import Utils Spec.

(** The default factor, on a non-empty map of cells of ℕ^d. *)
Lemma compute_limit_shape_default (cell_counts : gmap (list Z) Z) (dimensions : Z) :
  cell_counts ≠ ∅ → dimensions = 2 ∨ dimensions = 3 →
  (∀ key, is_Some (cell_counts !! key) → is_cell dimensions key) →
  ∃ n, is_max_extent cell_counts n ∧ 0 ≤ n ∧
    compute_limit_shape cell_counts None dimensions =
      let default := if bool_decide (dimensions = 2) then sqrt (IZR n) else cbrt (IZR n) in
      if Rle_dec default 0 then inl ValueError_scaling else inr (Finite default).
Proof.
  intros Hne Hdims Hcells. unfold compute_limit_shape. rewrite decide_False by done.
  destruct Hdims as [-> | ->]; simpl.
  - destruct (max_extent_spec sum2 cell_counts Hne) as (n & -> & Hmax).
    { intros key [Hlen _]%Hcells. apply sum2_extent. lia. }
    assert (0 ≤ n) as Hn.
    { destruct Hmax as [(key & [_ Hpos]%Hcells & <-) _]. by apply extent_nonneg. }
    exists n. split; [done|]. split; [done|].
    unfold np_sqrt. rewrite bool_decide_eq_false_2 by lia. simpl.
    by destruct (Rle_dec _ _).
  - destruct (max_extent_spec sum3 cell_counts Hne) as (n & -> & Hmax).
    { intros key [Hlen _]%Hcells. apply sum3_extent. lia. }
    assert (0 ≤ n) as Hn.
    { destruct Hmax as [(key & [_ Hpos]%Hcells & <-) _]. by apply extent_nonneg. }
    exists n. split; [done|]. split; [done|]. simpl. by destruct (Rle_dec _ _).
Qed.

Lemma cbrt_pos (x : R) : (0 < x → 0 < cbrt x)%R.
Proof.
  intros Hx. unfold cbrt. destruct (Rlt_dec 0 x); [|done]. apply exp_pos.
Qed.

Lemma cbrt_neg (x : R) : (x < 0 → cbrt x < 0)%R.
Proof.
  intros Hx. unfold cbrt. destruct (Rlt_dec 0 x); [lra|].
  destruct (Rlt_dec x 0); [|lra].
  pose proof (exp_pos (/ 3 * ln (- x))) as Hpos. unfold Rpower. lra.
Qed.

Lemma extent_zero (key : list Z) :
  Forall (λ x, 0 ≤ x) key → extent key = 0 ↔ Forall (λ x, x = 0) key.
Proof.
  induction 1 as [|x key Hx Hkey IH]; simpl; [done|].
  pose proof (extent_nonneg key Hkey). split.
  - intros Hsum. constructor; [lia|]. apply IH. lia.
  - intros [Hx0 Hrest]%Forall_cons. apply IH in Hrest. lia.
Qed.

Lemma mapM_fails {A B} (f : A → option B) (l : list A) (a : A) :
  a ∈ l → f a = None → mapM f l = None.
Proof.
  intros Hin Hf. apply mapM_None. apply Exists_exists. by exists a.
Qed.

End Scaling_edges.

(** X11. What [compute_limit_shape] does on unusual arguments, for a
    non-empty map.  A [dimensions] other than 2 and 3 raises its
    [ValueError], given factor or not.  Without a given factor, a key whose
    length is not [dimensions] makes the unpacking under [max] raise: so a
    map of 3D cells passed with the default [dimensions=2] is refused.  The
    test [scaling_factor <= 0] lets [nan] through: a given [nan], and the
    default of a 2D map whose extents are all negative ([np.sqrt] of a
    negative number), are accepted, whereas in 3D a negative extent gives a
    negative cube root and raises. *)
Theorem X11_limit_shape_unusual_arguments :
  (∀ cell_counts scaling_factor dimensions,
     cell_counts ≠ ∅ → dimensions ≠ 2 → dimensions ≠ 3 →
     Utils.compute_limit_shape cell_counts scaling_factor dimensions
       = inl ValueError_dimensions) ∧
  (∀ (cell_counts : gmap (list Z) Z) dimensions key,
     dimensions = 2 ∨ dimensions = 3 →
     is_Some (cell_counts !! key) → Z.of_nat (length key) ≠ dimensions →
     Utils.compute_limit_shape cell_counts None dimensions = inl ValueError_unpack) ∧
  (∀ cell_counts dimensions,
     cell_counts ≠ ∅ → dimensions = 2 ∨ dimensions = 3 →
     Utils.compute_limit_shape cell_counts (Some Utils.NaN) dimensions = inr Utils.NaN) ∧
  (∀ (cell_counts : gmap (list Z) Z),
     cell_counts ≠ ∅ →
     (∀ key, is_Some (cell_counts !! key) → length key = 2%nat ∧ Spec.extent key < 0) →
     Utils.compute_limit_shape cell_counts None 2 = inr Utils.NaN) ∧
  (∀ (cell_counts : gmap (list Z) Z),
     cell_counts ≠ ∅ →
     (∀ key, is_Some (cell_counts !! key) → length key = 3%nat ∧ Spec.extent key < 0) →
     Utils.compute_limit_shape cell_counts None 3 = inl ValueError_scaling).
Proof.
  split; [|split; [|split; [|split]]].
  - intros m sf dims Hne H2 H3. unfold Utils.compute_limit_shape.
    rewrite decide_False by done. by rewrite !bool_decide_eq_false_2 by done.
  - intros m dims key Hdims Hkey Hlen. unfold Utils.compute_limit_shape.
    assert (m ≠ ∅) as Hne.
    { intros ->. destruct Hkey as [v Hv]. by rewrite lookup_empty in Hv. }
    rewrite decide_False by done.
    apply elem_of_keys in Hkey.
    destruct Hdims as [-> | ->]; simpl; unfold Utils.max_extent.
    + rewrite (mapM_fails Utils.sum2 _ key Hkey); [done|].
      by destruct key as [|x [|y [|??]]].
    + rewrite (mapM_fails Utils.sum3 _ key Hkey); [done|].
      by destruct key as [|x [|y [|z [|??]]]].
  - intros m dims Hne Hdims. unfold Utils.compute_limit_shape.
    rewrite decide_False by done. by destruct Hdims as [-> | ->].
  - intros m Hne Hkeys. unfold Utils.compute_limit_shape.
    rewrite decide_False by done. simpl.
    destruct (max_extent_spec Utils.sum2 m Hne) as (n & -> & [(key & Hkey & <-) _]).
    { intros key [Hlen _]%Hkeys. by apply sum2_extent. }
    destruct (Hkeys key Hkey) as [_ Hneg].
    unfold Utils.np_sqrt. by rewrite bool_decide_eq_true_2.
  - intros m Hne Hkeys. unfold Utils.compute_limit_shape.
    rewrite decide_False by done. simpl.
    destruct (max_extent_spec Utils.sum3 m Hne) as (n & -> & [(key & Hkey & <-) _]).
    { intros key [Hlen _]%Hkeys. by apply sum3_extent. }
    destruct (Hkeys key Hkey) as [_ Hneg]. simpl.
    pose proof (cbrt_neg (IZR (Spec.extent key))) as Hc.
    destruct (Rle_dec _ _) as [|Hnle]; [done|]. exfalso. apply Hnle.
    apply Rlt_le, Hc. by apply (IZR_lt _ 0).
Qed.

Lemma X11_limit_shape_unusual_arguments_witness :
  Utils.compute_limit_shape {[ [1; 2] := 1 ]} None 4 = inl ValueError_dimensions ∧
  Utils.compute_limit_shape {[ [1; 2; 3] := 1 ]} None 2 = inl ValueError_unpack ∧
  Utils.compute_limit_shape {[ [1; 2] := 1 ]} (Some Utils.NaN) 2 = inr Utils.NaN ∧
  Utils.compute_limit_shape {[ [-1; 0] := 1 ]} None 2 = inr Utils.NaN ∧
  Utils.compute_limit_shape {[ [-1; 0; 0] := 1 ]} None 3 = inl ValueError_scaling.
Proof.
  destruct X11_limit_shape_unusual_arguments as (Hd & Hu & Hn & Hs & Hc).
  split; [|split; [|split; [|split]]].
  - apply Hd; [apply insert_non_empty | lia | lia].
  - apply (Hu _ _ [1; 2; 3]); [by left | by rewrite lookup_singleton_eq | simpl; lia].
  - apply Hn; [apply insert_non_empty | by left].
  - apply Hs; [apply insert_non_empty|].
    intros key [v [<- _]%lookup_singleton_Some]. split; [reflexivity | simpl; lia].
  - apply Hc; [apply insert_non_empty|].
    intros key [v [<- _]%lookup_singleton_Some]. split; [reflexivity | simpl; lia].
Defined.

(** X12. On a non-empty map of cells of ℕ^d, called with [dimensions = d]
    and no factor, [compute_limit_shape] raises the scaling error exactly
    when every cell of the map is the origin; on any other such map it goes
    on with a positive, finite factor. *)
Theorem X12_default_factor_fails_only_at_origin :
  ∀ (cell_counts : gmap (list Z) Z) dimensions,
    cell_counts ≠ ∅ → dimensions = 2 ∨ dimensions = 3 →
    (∀ key, is_Some (cell_counts !! key) → Spec.is_cell dimensions key) →
    (Utils.compute_limit_shape cell_counts None dimensions = inl ValueError_scaling ↔
     ∀ key, is_Some (cell_counts !! key) → Forall (λ x, x = 0) key) ∧
    (Utils.compute_limit_shape cell_counts None dimensions = inl ValueError_scaling ∨
     ∃ r, (0 < r)%R ∧
       Utils.compute_limit_shape cell_counts None dimensions = inr (Utils.Finite r)).
Proof.
  intros m dims Hne Hdims Hcells.
  destruct (compute_limit_shape_default m dims Hne Hdims Hcells)
    as (n & [(key0 & Hkey0 & Hext0) Hmax] & Hn & ->). cbv zeta.
  assert ((∀ key, is_Some (m !! key) → Forall (λ x, x = 0) key) ↔ n = 0) as Hzero.
  { split.
    - intros Hall. rewrite <- Hext0. apply extent_zero; [|by apply Hall].
      by destruct (Hcells key0 Hkey0).
    - intros -> key Hkey. destruct (Hcells key Hkey) as [_ Hpos].
      apply extent_zero; [done|]. pose proof (Hmax key Hkey).
      pose proof (extent_nonneg key Hpos). lia. }
  assert (n = 0 ∨ (0 < IZR n)%R) as [-> | Hpos].
  { destruct (decide (n = 0)) as [|Hn0]; [by left|]. right. apply (IZR_lt 0). lia. }
  - assert ((if bool_decide (dims = 2) then sqrt 0 else Utils.cbrt 0) = 0%R) as ->.
    { case_bool_decide; [apply sqrt_0 | apply cbrt_0]. }
    destruct (Rle_dec 0 0) as [|Hnle]; [|lra]. split; [|by left].
    split; [intros _; by apply Hzero | done].
  - assert (0 < (if bool_decide (dims = 2%Z) then sqrt (IZR n) else Utils.cbrt (IZR n)))%R
      as Hfac.
    { case_bool_decide; [by apply sqrt_lt_R0 | by apply cbrt_pos]. }
    destruct (Rle_dec _ 0) as [Hle|_]; [lra|]. split.
    + split; [done|]. intros Hall%Hzero. rewrite Hall in Hpos. lra.
    + right. by eexists.
Qed.

Lemma X12_default_factor_fails_only_at_origin_witness :
  Utils.compute_limit_shape {[ [0; 0] := 5 ]} None 2 = inl ValueError_scaling ∧
  (Utils.compute_limit_shape {[ [2; 1; 0] := 5 ]} None 3 = inl ValueError_scaling ∨
   ∃ r, (0 < r)%R ∧
     Utils.compute_limit_shape {[ [2; 1; 0] := 5 ]} None 3 = inr (Utils.Finite r)).
Proof.
  split.
  - apply (X12_default_factor_fails_only_at_origin {[ [0; 0] := 5 ]} 2).
    + apply insert_non_empty.
    + by left.
    + intros key [v [<- _]%lookup_singleton_Some]. split; [reflexivity|].
      repeat constructor; lia.
    + intros key [v [<- _]%lookup_singleton_Some]. by repeat constructor.
  - apply (X12_default_factor_fails_only_at_origin {[ [2; 1; 0] := 5 ]} 3).
    + apply insert_non_empty.
    + by right.
    + intros key [v [<- _]%lookup_singleton_Some]. split; [reflexivity|].
      repeat constructor; lia.
Defined.

(** * Export of the frequency map *)

Section Export_facts.

Lemma py_max_values `{Countable K} (m : gmap K Z) :
  m ≠ ∅ →
  ∃ mc, Utils.py_max (map_to_list m).*2 = Some mc ∧
        (∃ c, m !! c = Some mc) ∧ ∀ c v, m !! c = Some v → v ≤ mc.
Proof.
  intros Hne. destruct (py_max_spec (map_to_list m).*2) as (mc & Hmc & Hin & Hmax).
  { intros Hnil%fmap_nil_inv. by apply map_to_list_empty_iff in Hnil. }
  exists mc. split; [done|]. split.
  - apply list_elem_of_fmap in Hin as ([c v] & -> & Hcv). exists c.
    by apply elem_of_map_to_list.
  - intros c v Hv. apply Hmax, list_elem_of_fmap. exists (c, v).
    split; [done | by apply elem_of_map_to_list].
Qed.

Lemma py_max_keys `{Countable K} (f : K → Z) (m : gmap K Z) :
  m ≠ ∅ →
  ∃ n, Utils.py_max (f <$> (map_to_list m).*1) = Some n ∧
       ∀ c, is_Some (m !! c) → f c ≤ n.
Proof.
  intros Hne.
  destruct (py_max_spec (f <$> (map_to_list m).*1)) as (n & Hn & _ & Hmax).
  { intros Hnil%fmap_nil_inv%fmap_nil_inv. by apply map_to_list_empty_iff in Hnil. }
  exists n. split; [done|]. intros c [v Hv]. apply Hmax.
  apply list_elem_of_fmap. exists c. split; [done|].
  apply list_elem_of_fmap. exists (c, v). split; [done | by apply elem_of_map_to_list].
Qed.

Lemma normalized_bounds (c m : Z) :
  0 < c → c ≤ m → (0 < inject_Z c / inject_Z m)%Q ∧ (inject_Z c / inject_Z m <= 1)%Q.
Proof.
  intros Hc Hm. destruct m as [|p|p]; try lia.
  unfold Qlt, Qle, Qdiv, Qmult, Qinv, inject_Z. simpl. lia.
Qed.

Lemma normalized_max (m : Z) : m ≠ 0 → (inject_Z m / inject_Z m == 1)%Q.
Proof.
  intros Hm. apply Qmult_inv_r. intros Heq. apply Hm.
  unfold Qeq, inject_Z in Heq. simpl in Heq. lia.
Qed.

End Export_facts.

(** [get_json_data] on the maps [simulate] produces: counts of at least 1. *)
Lemma get_json_data_positive2 :
  ∀ m : gmap (Z * Z) Z, m ≠ ∅ → (∀ c v, m !! c = Some v → 1 ≤ v) →
     ∃ cells max_count max_x max_y,
       DiagramSimulator2D_data.get_json_data m
         = inr (DiagramSimulator2D_data.Json_data cells max_count max_x max_y) ∧
       length cells = size m ∧
       (∃ c, m !! c = Some max_count) ∧
       (∀ x y v, m !! (x, y) = Some v →
          v ≤ max_count ∧ x < max_x ∧ y < max_y ∧
          DiagramSimulator2D_data.mk_cell_data x y v (inject_Z v / inject_Z max_count)
            ∈ cells) ∧
       (∀ e, e ∈ cells →
          m !! (DiagramSimulator2D_data.cd_x e, DiagramSimulator2D_data.cd_y e)
            = Some (DiagramSimulator2D_data.cd_count e) ∧
          (0 < DiagramSimulator2D_data.cd_normalized_count e)%Q ∧
          (DiagramSimulator2D_data.cd_normalized_count e <= 1)%Q ∧
          (DiagramSimulator2D_data.cd_count e = max_count →
           (DiagramSimulator2D_data.cd_normalized_count e == 1)%Q)).
Proof.
  intros m Hne Hpos. unfold DiagramSimulator2D_data.get_json_data.
  rewrite decide_False by done.
  destruct (py_max_values m Hne) as (mc & -> & [c0 Hc0] & Hmax).
  pose proof (Hpos _ _ Hc0) as Hmc. rewrite decide_False by lia.
  destruct (py_max_keys (λ c : Z * Z, c.1) m Hne) as (mx & -> & Hmx).
  destruct (py_max_keys (λ c : Z * Z, c.2) m Hne) as (my & -> & Hmy).
  eexists _, mc, (mx + 1), (my + 1). split; [done|]. split.
  { by rewrite length_fmap, length_map_to_list. }
  split; [by exists c0|]. split.
  + intros x y v Hv. split; [by eapply Hmax|].
    pose proof (Hmx (x, y) (ex_intro _ v Hv)). pose proof (Hmy (x, y) (ex_intro _ v Hv)).
    simpl in *. split; [lia|]. split; [lia|].
    apply list_elem_of_fmap. exists ((x, y), v). split; [done|].
    by apply elem_of_map_to_list.
  + intros e ([[x y] v] & -> & Hv%elem_of_map_to_list)%list_elem_of_fmap. simpl.
    split; [done|]. pose proof (Hpos _ _ Hv). pose proof (Hmax _ _ Hv).
    destruct (normalized_bounds v mc) as [? ?]; [lia | lia |].
    split; [done|]. split; [done|]. intros ->. apply normalized_max. lia.
Qed.

Lemma get_json_data_positive3 :
  ∀ m : gmap (Z * Z * Z) Z, m ≠ ∅ → (∀ c v, m !! c = Some v → 1 ≤ v) →
     ∃ cells max_count max_x max_y max_z,
       DiagramSimulator3D_data.get_json_data m
         = inr (DiagramSimulator3D_data.Json_data cells max_count max_x max_y max_z) ∧
       length cells = size m ∧
       (∃ c, m !! c = Some max_count) ∧
       (∀ x y z v, m !! (x, y, z) = Some v →
          v ≤ max_count ∧ x < max_x ∧ y < max_y ∧ z < max_z ∧
          DiagramSimulator3D_data.mk_cell_data x y z v (inject_Z v / inject_Z max_count)
            ∈ cells) ∧
       (∀ e, e ∈ cells →
          m !! (DiagramSimulator3D_data.cd_x e, DiagramSimulator3D_data.cd_y e,
                DiagramSimulator3D_data.cd_z e)
            = Some (DiagramSimulator3D_data.cd_count e) ∧
          (0 < DiagramSimulator3D_data.cd_normalized_count e)%Q ∧
          (DiagramSimulator3D_data.cd_normalized_count e <= 1)%Q ∧
          (DiagramSimulator3D_data.cd_count e = max_count →
           (DiagramSimulator3D_data.cd_normalized_count e == 1)%Q)).
Proof.
  intros m Hne Hpos. unfold DiagramSimulator3D_data.get_json_data.
  rewrite decide_False by done.
  destruct (py_max_values m Hne) as (mc & -> & [c0 Hc0] & Hmax).
  pose proof (Hpos _ _ Hc0) as Hmc. rewrite decide_False by lia.
  destruct (py_max_keys (λ c : Z * Z * Z, c.1.1) m Hne) as (mx & -> & Hmx).
  destruct (py_max_keys (λ c : Z * Z * Z, c.1.2) m Hne) as (my & -> & Hmy).
  destruct (py_max_keys (λ c : Z * Z * Z, c.2) m Hne) as (mz & -> & Hmz).
  eexists _, mc, (mx + 1), (my + 1), (mz + 1). split; [done|]. split.
  { by rewrite length_fmap, length_map_to_list. }
  split; [by exists c0|]. split.
  + intros x y z v Hv. split; [by eapply Hmax|].
    pose proof (Hmx (x, y, z) (ex_intro _ v Hv)).
    pose proof (Hmy (x, y, z) (ex_intro _ v Hv)).
    pose proof (Hmz (x, y, z) (ex_intro _ v Hv)).
    simpl in *. split; [lia|]. split; [lia|]. split; [lia|].
    apply list_elem_of_fmap. exists ((x, y, z), v). split; [done|].
    by apply elem_of_map_to_list.
  + intros e ([[[x y] z] v] & -> & Hv%elem_of_map_to_list)%list_elem_of_fmap. simpl.
    split; [done|]. pose proof (Hpos _ _ Hv). pose proof (Hmax _ _ Hv).
    destruct (normalized_bounds v mc) as [? ?]; [lia | lia |].
    split; [done|]. split; [done|]. intros ->. apply normalized_max. lia.
Qed.

(** X13. [get_json_data] of either aggregator.  On an empty map it
    returns the error dictionary and raises nothing.  On a non-empty map
    whose counts are all at least 1 it returns one entry per cell, with the
    count of the cell and a normalised count in (0, 1] that is 1 for a cell
    of largest count; ["max_count"] is the largest count, reached by a cell;
    ["max_x"], ["max_y"] (and ["max_z"]) are strictly above every coordinate.
    On a non-empty map whose largest count is 0 the division raises
    [ZeroDivisionError]. *)
Theorem X13_get_json_data :
  (DiagramSimulator2D_data.get_json_data ∅ = inr DiagramSimulator2D_data.Json_error ∧
   DiagramSimulator3D_data.get_json_data ∅ = inr DiagramSimulator3D_data.Json_error) ∧
  (∀ m : gmap (Z * Z) Z, m ≠ ∅ → (∀ c v, m !! c = Some v → 1 ≤ v) →
     ∃ cells max_count max_x max_y,
       DiagramSimulator2D_data.get_json_data m
         = inr (DiagramSimulator2D_data.Json_data cells max_count max_x max_y) ∧
       length cells = size m ∧
       (∃ c, m !! c = Some max_count) ∧
       (∀ x y v, m !! (x, y) = Some v →
          v ≤ max_count ∧ x < max_x ∧ y < max_y ∧
          DiagramSimulator2D_data.mk_cell_data x y v (inject_Z v / inject_Z max_count)
            ∈ cells) ∧
       (∀ e, e ∈ cells →
          m !! (DiagramSimulator2D_data.cd_x e, DiagramSimulator2D_data.cd_y e)
            = Some (DiagramSimulator2D_data.cd_count e) ∧
          (0 < DiagramSimulator2D_data.cd_normalized_count e)%Q ∧
          (DiagramSimulator2D_data.cd_normalized_count e <= 1)%Q ∧
          (DiagramSimulator2D_data.cd_count e = max_count →
           (DiagramSimulator2D_data.cd_normalized_count e == 1)%Q))) ∧
  (∀ m : gmap (Z * Z * Z) Z, m ≠ ∅ → (∀ c v, m !! c = Some v → 1 ≤ v) →
     ∃ cells max_count max_x max_y max_z,
       DiagramSimulator3D_data.get_json_data m
         = inr (DiagramSimulator3D_data.Json_data cells max_count max_x max_y max_z) ∧
       length cells = size m ∧
       (∃ c, m !! c = Some max_count) ∧
       (∀ x y z v, m !! (x, y, z) = Some v →
          v ≤ max_count ∧ x < max_x ∧ y < max_y ∧ z < max_z ∧
          DiagramSimulator3D_data.mk_cell_data x y z v (inject_Z v / inject_Z max_count)
            ∈ cells) ∧
       (∀ e, e ∈ cells →
          m !! (DiagramSimulator3D_data.cd_x e, DiagramSimulator3D_data.cd_y e,
                DiagramSimulator3D_data.cd_z e)
            = Some (DiagramSimulator3D_data.cd_count e) ∧
          (0 < DiagramSimulator3D_data.cd_normalized_count e)%Q ∧
          (DiagramSimulator3D_data.cd_normalized_count e <= 1)%Q ∧
          (DiagramSimulator3D_data.cd_count e = max_count →
           (DiagramSimulator3D_data.cd_normalized_count e == 1)%Q))) ∧
  (∀ m : gmap (Z * Z) Z, m ≠ ∅ → (∀ c v, m !! c = Some v → v ≤ 0) →
     (∃ c, m !! c = Some 0) →
     DiagramSimulator2D_data.get_json_data m = inl ZeroDivisionError) ∧
  (∀ m : gmap (Z * Z * Z) Z, m ≠ ∅ → (∀ c v, m !! c = Some v → v ≤ 0) →
     (∃ c, m !! c = Some 0) →
     DiagramSimulator3D_data.get_json_data m = inl ZeroDivisionError).
Proof.
  split; [done|]. split; [|split; [|split]].
  - exact get_json_data_positive2.
  - exact get_json_data_positive3.
  - intros m Hne Hle [c Hc]. unfold DiagramSimulator2D_data.get_json_data.
    rewrite decide_False by done.
    destruct (py_max_values m Hne) as (mc & -> & [c0 Hc0] & Hmax).
    pose proof (Hle _ _ Hc0). pose proof (Hmax _ _ Hc). by rewrite decide_True by lia.
  - intros m Hne Hle [c Hc]. unfold DiagramSimulator3D_data.get_json_data.
    rewrite decide_False by done.
    destruct (py_max_values m Hne) as (mc & -> & [c0 Hc0] & Hmax).
    pose proof (Hle _ _ Hc0). pose proof (Hmax _ _ Hc). by rewrite decide_True by lia.
Qed.

Lemma X13_get_json_data_witness :
  (∃ cells max_count max_x max_y,
     DiagramSimulator2D_data.get_json_data {[ (0, 0) := 2; (1, 0) := 1 ]}
       = inr (DiagramSimulator2D_data.Json_data cells max_count max_x max_y) ∧
     length cells = size ({[ (0, 0) := 2; (1, 0) := 1 ]} : gmap (Z * Z) Z)) ∧
  DiagramSimulator3D_data.get_json_data {[ (0, 0, 0) := 0 ]} = inl ZeroDivisionError.
Proof.
  destruct X13_get_json_data as (_ & H2 & _ & _ & H0). split.
  - destruct (H2 {[ (0, 0) := 2; (1, 0) := 1 ]}) as (cells & mc & mx & my & Hj & Hlen & _).
    + apply insert_non_empty.
    + intros c v [[_ <-]|[_ [_ <-]%lookup_singleton_Some]]%lookup_insert_Some; lia.
    + by exists cells, mc, mx, my.
  - apply H0.
    + apply insert_non_empty.
    + intros c v [_ <-]%lookup_singleton_Some. lia.
    + exists (0, 0, 0). by rewrite lookup_singleton_eq.
Defined.

(** * From a simulation to its exports *)

Section After_simulate.
Import Spec.
Implicit Types (rng : nat → nat → nat) (n_steps runs : Z) (alpha : Q) (run todo : nat).






End After_simulate.






(** * The text dump of the frequency map *)

Section Dump.
Import Utils_files.

Lemma tuple_le_refl (a : list Z) : tuple_le a a = true.
Proof.
  induction a as [|x a IH]; simpl; [done|].
  rewrite Z.eqb_refl, IH. by rewrite orb_true_r.
Qed.

Lemma tuple_le_total (a b : list Z) : tuple_le a b = true ∨ tuple_le b a = true.
Proof.
  revert b. induction a as [|x a IH]; intros [|y b]; simpl; auto.
  destruct (Z.ltb_spec x y), (Z.ltb_spec y x), (Z.eqb_spec x y), (Z.eqb_spec y x);
    simpl; auto; try lia.
Qed.

Lemma tuple_le_trans (a b c : list Z) :
  tuple_le a b = true → tuple_le b c = true → tuple_le a c = true.
Proof.
  revert b c. induction a as [|x a IH]; intros [|y b] [|z c]; simpl; try done.
  destruct (Z.ltb_spec x y), (Z.ltb_spec y z), (Z.ltb_spec x z),
    (Z.eqb_spec x y), (Z.eqb_spec y z), (Z.eqb_spec x z); simpl; try done; try lia.
  apply IH.
Qed.

Lemma tuple_le_antisym (a b : list Z) :
  tuple_le a b = true → tuple_le b a = true → a = b.
Proof.
  revert b. induction a as [|x a IH]; intros [|y b]; simpl; try done.
  destruct (Z.ltb_spec x y), (Z.ltb_spec y x), (Z.eqb_spec x y), (Z.eqb_spec y x);
    simpl; try done; try lia.
  intros Hab Hba. subst y. f_equal. by apply IH.
Qed.

#[local] Instance item_le_total : Total item_le.
Proof.
  intros [a u] [b v]. unfold item_le. simpl.
  destruct (decide (a = b)) as [->|Hne].
  - rewrite tuple_le_refl. destruct (Z.le_ge_cases u v); [left | right]; by split.
  - destruct (tuple_le_total a b) as [H|H]; [left | right];
      (split; [by rewrite H | congruence]).
Qed.

#[local] Instance item_le_trans : Transitive item_le.
Proof.
  intros [a u] [b v] [c w]. unfold item_le. simpl. intros [Hab Huv] [Hbc Hvw].
  apply Is_true_true in Hab, Hbc. split.
  - apply Is_true_true. by eapply tuple_le_trans.
  - intros ->. assert (b = c) as -> by (by apply tuple_le_antisym).
    specialize (Huv eq_refl). specialize (Hvw eq_refl). lia.
Qed.

Lemma sorted_items_perm (m : gmap (list Z) Z) : sorted_items m ≡ₚ map_to_list m.
Proof. apply merge_sort_Permutation. Qed.

Lemma elem_of_sorted_items (m : gmap (list Z) Z) coords count :
  (coords, count) ∈ sorted_items m ↔ m !! coords = Some count.
Proof. by rewrite sorted_items_perm, elem_of_map_to_list. Qed.

(** Strictly ascending keys. *)
Lemma sorted_items_ascending (m : gmap (list Z) Z) :
  StronglySorted (λ i j, tuple_le i.1 j.1 = true ∧ i.1 ≠ j.1) (sorted_items m).
Proof.
  assert (NoDup (sorted_items m).*1) as Hnd.
  { rewrite sorted_items_perm. apply NoDup_fst_map_to_list. }
  pose proof (StronglySorted_merge_sort item_le (map_to_list m)) as Hs.
  fold (sorted_items m) in Hs. revert Hnd Hs.
  induction (sorted_items m) as [|i l IH]; intros Hnd Hs; [constructor|].
  apply NoDup_cons in Hnd as [Hi Hnd]. apply StronglySorted_inv in Hs as [Hs Hall].
  constructor; [by apply IH|].
  rewrite Forall_forall in Hall |- *. intros j Hj. destruct (Hall j Hj) as [Hle _].
  split; [by apply Is_true_true|].
  intros Heq. apply Hi. rewrite Heq. apply list_elem_of_fmap. by exists j.
Qed.

End Dump.

(** X16. [save_cells_to_file] replaces the contents of [filename] by the
    lines of the items in the order of [sorted] and touches no other file.
    The items written are exactly the entries of the map, each once, in
    strictly ascending order of the coordinate tuples (the first differing
    coordinate decides); a key that is neither a pair nor a triple is
    skipped without an error; an empty map leaves an empty file. *)
Theorem X16_save_cells_to_file :
  ∀ (cell_counts : gmap (list Z) Z) (filename : string) (files : gmap string string),
    let files' := Utils_files.save_cells_to_file cell_counts filename files in
    files' !! filename =
      Some (String.concat "" (Utils_files.format_line <$> Utils_files.sorted_items cell_counts)) ∧
    (∀ other, other ≠ filename → files' !! other = files !! other) ∧
    (∀ coords count,
       (coords, count) ∈ Utils_files.sorted_items cell_counts ↔
       cell_counts !! coords = Some count) ∧
    length (Utils_files.sorted_items cell_counts) = size cell_counts ∧
    StronglySorted (λ i j, Utils_files.tuple_le i.1 j.1 = true ∧ i.1 ≠ j.1)
      (Utils_files.sorted_items cell_counts) ∧
    (∀ coords count, length coords ≠ 2%nat → length coords ≠ 3%nat →
       Utils_files.format_line (coords, count) = "") ∧
    (cell_counts = ∅ → files' !! filename = Some "").
Proof.
  intros m filename files files'. unfold files', Utils_files.save_cells_to_file.
  split; [by rewrite lookup_insert_eq|]. split.
  { intros other Hne. by rewrite lookup_insert_ne. }
  split; [apply elem_of_sorted_items|]. split.
  { by rewrite sorted_items_perm, length_map_to_list. }
  split; [apply sorted_items_ascending|]. split.
  - intros coords count H2 H3. by destruct coords as [|x [|y [|z [|??]]]].
  - intros ->. by rewrite lookup_insert_eq.
Qed.

Lemma X16_save_cells_to_file_witness :
  Utils_files.save_cells_to_file {[ [1; 0] := 2; [0; 1] := 3; [0; 0] := 5 ]} "cells.txt" ∅
    !! "cells.txt"
  = Some ("0,0,5" +:+ Utils_files.newline +:+ "0,1,3" +:+ Utils_files.newline +:+
          "1,0,2" +:+ Utils_files.newline).
Proof.
  rewrite (proj1 (X16_save_cells_to_file
             {[ [1; 0] := 2; [0; 1] := 3; [0; 0] := 5 ]} "cells.txt" ∅)).
  vm_compute. reflexivity.
Defined.

(** * Snapshot files *)




(** * The text dump determines the counts *)

Section Dump_lines.

Implicit Types (a b : Ascii.ascii) (s r : string) (x y : Z).

(** Neither the separator nor the end of line occurs in a printed integer. *)
Lemma pretty_N_char_plain (d : N) :
  pretty_N_char d ≠ Ascii.ascii_of_nat 44 ∧ pretty_N_char d ≠ Ascii.ascii_of_nat 10.
Proof. unfold pretty_N_char. repeat case_match; done. Qed.

Lemma pretty_N_go_plain (P : Ascii.ascii → Prop) (n : N) s :
  (∀ d, P (pretty_N_char d)) →
  Forall P (String.list_ascii_of_string s) →
  Forall P (String.list_ascii_of_string (pretty_N_go n s)).
Proof.
  intros Hd. revert s. induction (N.lt_wf_0 n) as [n _ IH]; intros s Hs.
  destruct (decide (n = 0)%N) as [->|Hn]; [by rewrite pretty_N_go_0|].
  rewrite pretty_N_go_step by lia. apply IH.
  - apply N.div_lt; lia.
  - simpl. by constructor.
Qed.

Lemma pretty_Z_plain (P : Ascii.ascii → Prop) (z : Z) :
  (∀ d, P (pretty_N_char d)) → P (Ascii.ascii_of_nat 45) →
  Forall P (String.list_ascii_of_string (pretty z)).
Proof.
  intros Hd Hm. destruct z as [|p|p]; unfold pretty, pretty_Z.
  - simpl. constructor; [apply (Hd 0%N)|constructor].
  - unfold pretty, pretty_positive, pretty, pretty_N. rewrite decide_False by done.
    apply pretty_N_go_plain; [done | constructor].
  - simpl. constructor; [done|].
    unfold pretty, pretty_positive, pretty, pretty_N. rewrite decide_False by done.
    apply pretty_N_go_plain; [done | constructor].
Qed.

Lemma pretty_plain (z : Z) :
  Forall (λ c, c ≠ Ascii.ascii_of_nat 44 ∧ c ≠ Ascii.ascii_of_nat 10)
    (String.list_ascii_of_string (pretty z)).
Proof.
  apply (pretty_Z_plain (λ c, c ≠ Ascii.ascii_of_nat 44 ∧ c ≠ Ascii.ascii_of_nat 10));
    [apply pretty_N_char_plain | done].
Qed.

(** Two texts that agree and whose first character outside [P] is [a],
    respectively [b], agree piecewise. *)
Lemma append_sep_inj (P : Ascii.ascii → Prop) a b (s1 s2 r1 r2 : string) :
  ¬ P a → ¬ P b →
  Forall P (String.list_ascii_of_string s1) →
  Forall P (String.list_ascii_of_string s2) →
  s1 +:+ String a r1 = s2 +:+ String b r2 → s1 = s2 ∧ a = b ∧ r1 = r2.
Proof.
  intros Ha Hb. revert s2. induction s1 as [|c s1 IH]; intros [|c' s2] H1 H2; simpl.
  - by intros [= -> ->].
  - intros [= -> _]. by apply Forall_cons in H2 as [? _].
  - intros [= -> _]. by apply Forall_cons in H1 as [? _].
  - intros [= -> Heq]. apply Forall_cons in H1 as [_ H1]. apply Forall_cons in H2 as [_ H2].
    destruct (IH s2 H1 H2 Heq) as (-> & ? & ?). done.
Qed.

Lemma pretty_sep_inj a b x y (r1 r2 : string) :
  a = Ascii.ascii_of_nat 44 ∨ a = Ascii.ascii_of_nat 10 →
  b = Ascii.ascii_of_nat 44 ∨ b = Ascii.ascii_of_nat 10 →
  pretty x +:+ String a r1 = pretty y +:+ String b r2 → x = y ∧ a = b ∧ r1 = r2.
Proof.
  intros Ha Hb Heq.
  destruct (append_sep_inj (λ c, c ≠ Ascii.ascii_of_nat 44 ∧ c ≠ Ascii.ascii_of_nat 10)
              a b (pretty x) (pretty y) r1 r2)
    as (Hxy & ? & ?); [tauto | tauto | apply pretty_plain | apply pretty_plain | done |].
  by apply (inj pretty) in Hxy.
Qed.

Lemma string_app_nil_r s : s +:+ "" = s.
Proof.
  induction s as [|c s IH]; [done|].
  change (String c (s +:+ "") = String c s). by rewrite IH.
Qed.

Lemma string_app_assoc (s1 s2 s3 : string) : (s1 +:+ s2) +:+ s3 = s1 +:+ (s2 +:+ s3).
Proof.
  induction s1 as [|c s1 IH]; [done|].
  change (String c ((s1 +:+ s2) +:+ s3) = String c (s1 +:+ (s2 +:+ s3))). by rewrite IH.
Qed.

Lemma string_app_cons a s r : String a s +:+ r = String a (s +:+ r).
Proof. reflexivity. Qed.

Lemma string_app_nil_l r : "" +:+ r = r.
Proof. reflexivity. Qed.

Lemma concat_cons (h : string) (t : list string) :
  String.concat "" (h :: t) = h +:+ String.concat "" t.
Proof.
  destruct t as [|h' t]; [|done]. symmetry. apply string_app_nil_r.
Qed.

End Dump_lines.

Section Dump_injective.

Implicit Types (i j : list Z * Z) (l : list (list Z * Z)) (r : string).

(** A line followed by the rest of the file can be read back. *)
Lemma format_line_append_inj i j (r1 r2 : string) :
  (length i.1 = 2 ∨ length i.1 = 3)%nat → (length j.1 = 2 ∨ length j.1 = 3)%nat →
  Utils_files.format_line i +:+ r1 = Utils_files.format_line j +:+ r2 → i = j ∧ r1 = r2.
Proof.
  destruct i as [k1 c1], j as [k2 c2]. simpl.
  intros H1 H2.
  destruct k1 as [|x1 [|y1 [|z1 [|??]]]]; simpl in H1; try lia;
  destruct k2 as [|x2 [|y2 [|z2 [|??]]]]; simpl in H2; try lia;
    unfold Utils_files.format_line, Utils_files.newline;
    rewrite !string_app_assoc, ?string_app_cons, ?string_app_nil_l;
    intros Heq.
  all: repeat match goal with
    | H : pretty _ +:+ String _ _ = pretty _ +:+ String _ _ |- _ =>
        apply pretty_sep_inj in H as (-> & ? & ?); [| by (left + right) | by (left + right)]
    end; done.
Qed.

Lemma format_line_append_nonempty i r :
  (length i.1 = 2 ∨ length i.1 = 3)%nat → Utils_files.format_line i +:+ r ≠ "".
Proof.
  destruct i as [k c]. simpl. intros Hk.
  destruct k as [|x [|y [|z [|??]]]]; simpl in Hk; try lia;
    unfold Utils_files.format_line;
    rewrite !string_app_assoc, ?string_app_cons, ?string_app_nil_l;
    by destruct (pretty x).
Qed.

Lemma dump_inj l1 l2 :
  Forall (λ i, length i.1 = 2 ∨ length i.1 = 3)%nat l1 →
  Forall (λ i, length i.1 = 2 ∨ length i.1 = 3)%nat l2 →
  String.concat "" (Utils_files.format_line <$> l1)
    = String.concat "" (Utils_files.format_line <$> l2) →
  l1 = l2.
Proof.
  revert l2. induction l1 as [|i l1 IH]; intros [|j l2] H1 H2;
    rewrite ?fmap_cons, ?concat_cons; intros Heq.
  - done.
  - apply Forall_cons in H2 as [Hj _]. symmetry in Heq.
    by apply format_line_append_nonempty in Heq.
  - apply Forall_cons in H1 as [Hi _]. by apply format_line_append_nonempty in Heq.
  - apply Forall_cons in H1 as [Hi H1]. apply Forall_cons in H2 as [Hj H2].
    apply format_line_append_inj in Heq as [-> Heq]; [|done..].
    f_equal. by apply IH.
Qed.

Lemma save_cells_to_file_inj (m1 m2 : gmap (list Z) Z) (f1 f2 : string)
    (files1 files2 : gmap string string) :
  (∀ k, is_Some (m1 !! k) → length k = 2 ∨ length k = 3)%nat →
  (∀ k, is_Some (m2 !! k) → length k = 2 ∨ length k = 3)%nat →
  Utils_files.save_cells_to_file m1 f1 files1 !! f1
    = Utils_files.save_cells_to_file m2 f2 files2 !! f2 →
  m1 = m2.
Proof.
  intros H1 H2. unfold Utils_files.save_cells_to_file.
  rewrite !lookup_insert_eq. intros [= Heq].
  apply dump_inj in Heq.
  - apply map_to_list_inj. by rewrite <- !sorted_items_perm, Heq.
  - apply Forall_forall. intros [k c] Hin. apply elem_of_sorted_items in Hin.
    apply H1. by exists c.
  - apply Forall_forall. intros [k c] Hin. apply elem_of_sorted_items in Hin.
    apply H2. by exists c.
Qed.

End Dump_injective.

(** X18. The text written by [save_cells_to_file] determines the counts:
    two maps whose keys are pairs or triples and whose dumps are the same
    text are the same map (no separator or end of line occurs in a printed
    integer, a sign included, so every line can be read back, and a line of
    a pair is never the line of a triple).  Hence [save_cells] of the 2D
    aggregator loses nothing, neither does that of the 3D aggregator, and a
    2D dump equals a 3D dump only when both maps are empty. *)
Theorem X18_dump_determines_counts :
  (∀ (m1 m2 : gmap (list Z) Z) (f1 f2 : string) (files1 files2 : gmap string string),
     (∀ k, is_Some (m1 !! k) → length k = 2 ∨ length k = 3)%nat →
     (∀ k, is_Some (m2 !! k) → length k = 2 ∨ length k = 3)%nat →
     Utils_files.save_cells_to_file m1 f1 files1 !! f1
       = Utils_files.save_cells_to_file m2 f2 files2 !! f2 →
     m1 = m2) ∧
  (∀ (c1 c2 : gmap (Z * Z) Z) (f1 f2 : string) (files1 files2 : gmap string string),
     DiagramSimulator2D_data.save_cells c1 f1 files1 !! f1
       = DiagramSimulator2D_data.save_cells c2 f2 files2 !! f2 →
     c1 = c2) ∧
  (∀ (c1 c2 : gmap (Z * Z * Z) Z) (f1 f2 : string) (files1 files2 : gmap string string),
     DiagramSimulator3D_data.save_cells c1 f1 files1 !! f1
       = DiagramSimulator3D_data.save_cells c2 f2 files2 !! f2 →
     c1 = c2) ∧
  (∀ (c2 : gmap (Z * Z) Z) (c3 : gmap (Z * Z * Z) Z) (f1 f2 : string)
     (files1 files2 : gmap string string),
     DiagramSimulator2D_data.save_cells c2 f1 files1 !! f1
       = DiagramSimulator3D_data.save_cells c3 f2 files2 !! f2 →
     c2 = ∅ ∧ c3 = ∅).
Proof.
  assert (Hk2 : ∀ (c : gmap (Z * Z) Z) (k : list Z),
            is_Some ((kmap key2 c : gmap (list Z) Z) !! k) → (length k = 2 ∨ length k = 3)%nat).
  { intros c k Hk. apply (lookup_kmap_is_Some key2) in Hk as (i & -> & _). by left. }
  assert (Hk3 : ∀ (c : gmap (Z * Z * Z) Z) (k : list Z),
            is_Some ((kmap key3 c : gmap (list Z) Z) !! k) → (length k = 2 ∨ length k = 3)%nat).
  { intros c k Hk. apply (lookup_kmap_is_Some key3) in Hk as (i & -> & _). by right. }
  split; [apply save_cells_to_file_inj|]. split; [|split].
  - intros c1 c2 f1 f2 files1 files2 Heq.
    apply save_cells_to_file_inj in Heq; [|apply Hk2..].
    by apply (inj (kmap key2)) in Heq.
  - intros c1 c2 f1 f2 files1 files2 Heq.
    apply save_cells_to_file_inj in Heq; [|apply Hk3..].
    by apply (inj (kmap key3)) in Heq.
  - intros c2 c3 f1 f2 files1 files2 Heq.
    apply save_cells_to_file_inj in Heq; [|apply Hk2|apply Hk3].
    split; apply map_empty; intros i.
    + destruct (c2 !! i) as [v|] eqn:Hi; [|done].
      assert (Hs : is_Some ((kmap key3 c3 : gmap (list Z) Z) !! key2 i)).
      { rewrite <- Heq, (lookup_kmap key2), Hi. by eexists. }
      apply (lookup_kmap_is_Some key3) in Hs as (j & Hj & _). discriminate Hj.
    + destruct (c3 !! i) as [v|] eqn:Hi; [|done].
      assert (Hs : is_Some ((kmap key2 c2 : gmap (list Z) Z) !! key3 i)).
      { rewrite Heq, (lookup_kmap key3), Hi. by eexists. }
      apply (lookup_kmap_is_Some key2) in Hs as (j & Hj & _). discriminate Hj.
Qed.

Lemma X18_dump_determines_counts_witness :
  ({[ [0; -1; 1] := 5 ]} : gmap (list Z) Z) = <[ [0; -1; 1] := 5 ]> ∅ ∧
  ({[ (1, 0) := 2; (0, 0) := 5 ]} : gmap (Z * Z) Z) = {[ (0, 0) := 5; (1, 0) := 2 ]}.
Proof.
  destruct X18_dump_determines_counts as (H & H2 & _). split.
  - apply (H _ _ "a.txt" "b.txt" ∅ ∅).
    + intros k [v Hk]. apply lookup_singleton_Some in Hk as [<- _]. by right.
    + intros k [v Hk]. apply lookup_insert_Some in Hk as [[<- _]|[_ Hk]]; [by right|done].
    + vm_compute. reflexivity.
  - apply (H2 _ _ "a.txt" "b.txt" ∅ ∅). vm_compute. reflexivity.
Defined.
